(** * portage.elog.messages: the phase-log parser and the message buffer

    A shallow embedding of [lib/portage/elog/messages.py]:
    - [collect_ebuild_messages] reads the per-phase log files of a
      directory, groups their lines by severity and sweeps the files;
    - [_elog_base], [collect_messages] and [_reset_buffer] maintain the
      module-global [_msgbuffer].

    Python dictionaries are finite maps ([gmap]); the file system and the
    diagnostic channel are an explicit world threaded through a small
    state-and-exception monad. *)

From Stdlib Require Import Ascii String.
From stdpp Require Import base option list strings gmap fin_maps.

(** ** Text helpers: [str.split] as the parser uses it *)

Module Text.

(** The newline character, [chr(10)]. *)
Definition nl_char : ascii := ascii_of_nat 10.
Definition sp_char : ascii := ascii_of_nat 32.
Definition nl : string := String nl_char EmptyString.

(** [s.split(sep)] for a one-character separator: k separators give
    k+1 pieces, and the empty text gives one empty piece. *)
Fixpoint split (sep : ascii) (s : string) : list string :=
  match s with
  | EmptyString => [EmptyString]
  | String c s' =>
      if Ascii.eqb c sep then EmptyString :: split sep s'
      else match split sep s' with
           | h :: t => String c h :: t
           | [] => [String c EmptyString]
           end
  end.

(** [s.split(sep, 1)]: cut at the first separator only; one piece when
    there is no separator. *)
Fixpoint split1 (sep : ascii) (s : string) : list string :=
  match s with
  | EmptyString => [EmptyString]
  | String c s' =>
      if Ascii.eqb c sep then [EmptyString; s']
      else match split1 sep s' with
           | h :: t => String c h :: t
           | [] => [String c EmptyString]
           end
  end.

(** Membership of a character in a text. *)
Fixpoint has_char (c : ascii) (s : string) : bool :=
  match s with
  | EmptyString => false
  | String d s' => Ascii.eqb d c || has_char c s'
  end.

(** Python's [str.isspace] on the code points below 128: tab, line feed,
    vertical tab, form feed, carriage return, the four separators
    0x1c-0x1f and the blank. *)
Definition is_space (c : ascii) : bool :=
  let n := nat_of_ascii c in
  (((9 <=? n) && (n <=? 13)) || ((28 <=? n) && (n <=? 32)))%nat.

Fixpoint lstrip (s : string) : string :=
  match s with
  | String c s' => if is_space c then lstrip s' else s
  | EmptyString => EmptyString
  end.

Fixpoint take_token (s : string) : string :=
  match s with
  | String c s' => if is_space c then EmptyString else String c (take_token s')
  | EmptyString => EmptyString
  end.

(** The first whitespace-delimited token of a line, [l.split()[0]];
    [None] when the line holds no token at all. *)
Definition first_token (s : string) : option string :=
  match lstrip s with
  | EmptyString => None
  | t => Some (take_token t)
  end.

(** [os.path.join(a, b)] of [posixpath] for two components. *)
Definition ends_with_slash (a : string) : bool :=
  match String.get (String.length a - 1) a with
  | Some c => Ascii.eqb c "/"
  | None => false
  end.

Definition path_join (a b : string) : string :=
  match b with
  | String "/" _ => b
  | _ => if (String.length a =? 0)%nat || ends_with_slash a
         then a +:+ b else a +:+ "/" +:+ b
  end.

End Text.

(** ** The world: directory listings, files and the diagnostic channel *)

(** A file on disk: the text [f.read()] returns, that is the content
    decoded with [errors="replace"] and after the newline translation of
    text mode ([None] when [io.open] raises), and whether [os.unlink]
    succeeds on it. *)
Record file := File { file_text : option string; file_unlinkable : bool }.

(** What the call does to the outside: diagnostics written with
    [writemsg], files opened, and unlink attempts, in program order. *)
Inductive event :=
| EvWritemsg (text : string)
| EvOpen (filename : string)
| EvUnlink (filename : string).

(** [listings] is what [os.listdir] answers for a path, in listing order
    (absent: [OSError]); [files] is the disk, keyed by file name. A name
    can be listed and yet missing from [files]: it was removed after the
    listing was taken. *)
Record world := World {
  listings : gmap string (list string);
  files : gmap string file;
  trace : list event
}.

#[global] Instance file_eq_dec : EqDecision file.
Proof. solve_decision. Defined.
#[global] Instance event_eq_dec : EqDecision event.
Proof. solve_decision. Defined.

Inductive exn := OSError.

Inductive outcome (A : Type) :=
| Return (a : A)
| Raise (e : exn).
Arguments Return {A} a.
Arguments Raise {A} e.

(** Computations over the world that return or raise. *)
Definition io (A : Type) : Type := world → outcome A * world.

#[global] Instance io_ret : MRet io := λ A a w, (Return a, w).
#[global] Instance io_bind : MBind io := λ A B f m w,
  match m w with
  | (Return a, w') => f a w'
  | (Raise e, w') => (Raise e, w')
  end.

(** [try: m except OSError: handler] *)
Definition try_OSError {A} (m handler : io A) : io A := λ w,
  match m w with
  | (Raise OSError, w') => handler w'
  | r => r
  end.

(** [for x in xs: s = body(s, x)], leaving at the first exception. *)
Fixpoint for_each {A S} (xs : list A) (body : S → A → io S) (s : S) : io S :=
  match xs with
  | [] => mret s
  | x :: xs' => s' ← body s x; for_each xs' body s'
  end.

Definition emit (e : event) (w : world) : world :=
  World (listings w) (files w) (trace w ++ [e]).

Definition os_listdir (path : string) : io (list string) := λ w,
  match listings w !! path with
  | Some names => (Return names, w)
  | None => (Raise OSError, w)
  end.

Definition writemsg (text : string) : io unit := λ w,
  (Return tt, emit (EvWritemsg text) w).

(** [f = io.open(filename, mode="r", errors="replace"); f.read(); f.close()] *)
Definition read_file (filename : string) : io string := λ w,
  match files w !! filename ≫= file_text with
  | Some text => (Return text, emit (EvOpen filename) w)
  | None => (Raise OSError, emit (EvOpen filename) w)
  end.

Definition os_unlink (filename : string) : io unit := λ w,
  match files w !! filename with
  | Some f =>
      if file_unlinkable f
      then (Return tt,
            World (listings w) (delete filename (files w))
                  (trace w ++ [EvUnlink filename]))
      else (Raise OSError, emit (EvUnlink filename) w)
  | None => (Raise OSError, emit (EvUnlink filename) w)
  end.

(** ** The phase-log parser *)

(** One group: a severity and the messages of one run. *)
Abbreviation group := (string * list string)%type.

Definition _log_levels : gset string :=
  {[ "ERROR"; "INFO"; "LOG"; "QA"; "WARN" ]}.

(** [msgtype, msg = l.split(" ", 1)] followed by the membership test;
    [None] is the [ValueError] of either the unpacking or the [raise]. *)
Definition parse_line (l : string) : option (string * string) :=
  match Text.split1 " " l with
  | [msgtype; msg] =>
      if bool_decide (msgtype ∈ _log_levels) then Some (msgtype, msg) else None
  | _ => None
  end.

(** [portage.localization._] is taken as the identity on text. *)
Definition invalid_file_msg (filename : string) : string :=
  "!!! can't process invalid log file: " +:+ filename +:+ Text.nl.

Definition malformed_msg (filename l : string) : string :=
  "!!! malformed entry in log file: '" +:+ filename +:+ "': " +:+ l +:+ Text.nl.

(** The variables of the loop over the lines of one file. *)
Record parse_state := ParseState {
  lastmsgtype : option string;
  msgcontent : list string;
  logentries : gmap string (list group)
}.

(** [logentries[msgfunction].append(g)]; the key was inserted before the
    file is read, so the subscript never fails. *)
Definition append_group (msgfunction : string) (g : group)
    (le : gmap string (list group)) : gmap string (list group) :=
  alter (λ gs, gs ++ [g]) msgfunction le.

(** Body of [for l in f.read().split("\n")]. *)
Definition line_body (filename msgfunction : string)
    (st : parse_state) (l : string) : io parse_state :=
  if bool_decide (l = "") then mret st
  else match parse_line l with
       | None => writemsg (malformed_msg filename l) ;; mret st
       | Some (msgtype, msg) =>
           let last := default msgtype (lastmsgtype st) in
           if bool_decide (msgtype = last)
           then mret (ParseState (Some msgtype) (msgcontent st ++ [msg])
                                 (logentries st))
           else
             let le := if bool_decide (msgcontent st = []) then logentries st
                       else append_group msgfunction (last, msgcontent st)
                                         (logentries st) in
             mret (ParseState (Some msgtype) [msg] le)
       end.

(** The flush after the last line. [msgcontent] is non-empty only once
    [lastmsgtype] has been set. *)
Definition final_flush (msgfunction : string) (st : parse_state)
    : gmap string (list group) :=
  match msgcontent st, lastmsgtype st with
  | _ :: _, Some last => append_group msgfunction (last, msgcontent st) (logentries st)
  | _, _ => logentries st
  end.

Section Parser.

(** [portage.const.EBUILD_PHASES]: the fixed set of phase names, defined
    outside this module. *)
Variable EBUILD_PHASES : list string.

(** Body of [for msgfunction in mylogfiles]. *)
Definition file_body (path : string) (le : gmap string (list group))
    (msgfunction : string) : io (gmap string (list group)) :=
  let filename := Text.path_join path msgfunction in
  if bool_decide (msgfunction ∈ EBUILD_PHASES) then
    let le := match le !! msgfunction with
              | None => <[msgfunction := []]> le
              | Some _ => le
              end in
    text ← read_file filename;
    st ← for_each (Text.split Text.nl_char text)
                  (line_body filename msgfunction) (ParseState None [] le);
    mret (final_flush msgfunction st)
  else
    writemsg (invalid_file_msg filename) ;; mret le.

(** Body of the cleanup loop: [try: os.unlink(...) except OSError: pass]. *)
Definition unlink_body (path : string) (_ : unit) (f : string) : io unit :=
  try_OSError (os_unlink (Text.path_join path f)) (mret tt).

Definition collect_ebuild_messages (path : string)
    : io (gmap string (list group)) :=
  mylogfiles ← try_OSError (names ← os_listdir path; mret (Some names))
                           (mret None);
  match mylogfiles with
  | None | Some [] => mret ∅
  | Some names =>
      let mylogfiles := reverse names in
      le ← for_each mylogfiles (file_body path) ∅;
      for_each mylogfiles (unlink_body path) tt ;;
      mret le
  end.

End Parser.

(** ** The message buffer *)

(** One buffered entry: [(level, msg)]. *)
Abbreviation entry := (string * string)%type.

(** [_msgbuffer]: key, then phase, then the entries in insertion order.
    The key [None] is Python's [None], the default of [_elog_base]. *)
Abbreviation buffer := (gmap (option string) (gmap string (list entry))).

(** The stream a message is written to. *)
Inductive stream :=
| Stdout
| Stderr
| Stream (name : string).

Definition _reset_buffer (_msgbuffer : buffer) : buffer := ∅.

Section Buffer.

(** [portage.output.colorize], defined outside this module. *)
Variable colorize : string → string → string.

(** [_elog_base(level, msg, phase, key, color, out)]: the text written to
    [out], and the buffer afterwards. Decoding and encoding are the
    identity on text. After the first test the key is in the buffer, and
    after the second the phase is under it, so no subscript fails. *)
Definition _elog_base (level msg phase : string) (key : option string)
    (color : option string) (out : option stream) (_msgbuffer : buffer)
    : (stream * string) * buffer :=
  let out := default Stdout out in
  let color := default "INFO" color in
  let formatted_msg := colorize color " * " +:+ msg +:+ Text.nl in
  let b1 := match _msgbuffer !! key with
            | None => <[key := ∅]> _msgbuffer
            | Some _ => _msgbuffer
            end in
  let b2 := match b1 !! key ≫= (.!! phase) with
            | None => alter (<[phase := []]>) key b1
            | Some _ => b1
            end in
  ((out, formatted_msg),
   alter (alter (λ l, l ++ [(level, msg)]) phase) key b2).

(** [_make_msgfunction(level, color).__call__(msg, phase, key, out)] *)
Definition _make_msgfunction (level color : string) (msg phase : string)
    (key : option string) (out : option stream) (_msgbuffer : buffer)
    : (stream * string) * buffer :=
  _elog_base level msg phase key (Some color) out _msgbuffer.

End Buffer.

(** The exported messaging functions: name, level and colour. *)
Definition _functions : list (string * (string * string)) :=
  [ ("einfo", ("INFO", "INFO")); ("elog", ("LOG", "LOG"));
    ("ewarn", ("WARN", "WARN")); ("eqawarn", ("QA", "QAWARN"));
    ("eerror", ("ERROR", "ERR")) ].

(** One turn of [for phase in phasefilter]:
    [rValue[key][phase] = _msgbuffer[key].pop(phase)], a [KeyError]
    being passed over. The state is [(rValue, _msgbuffer)]. *)
Definition pop_phase (key : option string) (st : buffer * buffer)
    (phase : string) : buffer * buffer :=
  match st.2 !! key ≫= (.!! phase) with
  | Some l => (alter (<[phase := l]>) key st.1, alter (delete phase) key st.2)
  | None => st
  end.

(** [collect_messages(key, phasefilter)]: the returned [rValue] and the
    buffer afterwards. *)
Definition collect_messages (key : option string)
    (phasefilter : option (list string)) (_msgbuffer : buffer)
    : buffer * buffer :=
  match key with
  | None => (_msgbuffer, _reset_buffer _msgbuffer)
  | Some _ =>
      match _msgbuffer !! key with
      | None => (∅, _msgbuffer)
      | Some phases =>
          match phasefilter with
          | None => (<[key := phases]> ∅, delete key _msgbuffer)
          | Some phasefilter =>
              let st := foldl (pop_phase key) (<[key := ∅]> ∅, _msgbuffer)
                              phasefilter in
              match st.2 !! key with
              | Some rest =>
                  if decide (rest = ∅) then (st.1, delete key st.2) else st
              | None => st
              end
          end
      end
  end.

(** ** Observations on buffers *)

(** The entries stored (or returned) for a key and a phase; the empty
    list when the key or the phase is absent. *)
Definition entries (m : buffer) (key : option string) (phase : string)
    : list entry :=
  default [] (m !! key ≫= (.!! phase)).

(** Every key holds at least one phase, and every phase at least one
    entry. *)
Definition buffer_inv (b : buffer) : Prop :=
  ∀ key phases, b !! key = Some phases →
    phases ≠ ∅ ∧ ∀ phase l, phases !! phase = Some l → l ≠ [].

(** The calls a client can make on the buffer. *)
Inductive call :=
| CallRecord (level msg phase : string) (key : option string)
             (color : option string) (out : option stream)
| CallDrain (key : option string) (phasefilter : option (list string)).

(** A sequence of [collect_messages] calls with nothing in between:
    the values returned, in call order, and the buffer at the end. *)
Fixpoint run_drains (calls : list (option string * option (list string)))
    (b : buffer) : list buffer * buffer :=
  match calls with
  | [] => ([], b)
  | (key, phasefilter) :: calls' =>
      let r := collect_messages key phasefilter b in
      let rs := run_drains calls' r.2 in
      (r.1 :: rs.1, rs.2)
  end.

(** A terminal without colours: [colorize] hands the text back. *)
Definition plain_colorize (color text : string) : string := text.

Section BufferRuns.

Variable colorize : string → string → string.

(** [_elog_base] seen through its effect on the buffer, with the default
    [color] and [out]. *)
Definition record (level msg phase : string) (key : option string)
    (b : buffer) : buffer :=
  (_elog_base colorize level msg phase key None None b).2.

Definition run_call (b : buffer) (c : call) : buffer :=
  match c with
  | CallRecord level msg phase key color out =>
      (_elog_base colorize level msg phase key color out b).2
  | CallDrain key phasefilter => (collect_messages key phasefilter b).2
  end.

(** The buffers the module can be in: those reached from the empty
    buffer of module load by some sequence of calls. *)
Definition reachable (b : buffer) : Prop :=
  ∃ calls, b = foldl run_call ∅ calls.

End BufferRuns.

(** ** Observations on the parser *)

(** The text [read_file] would return for a file name, if any. *)
Definition text_of (w : world) (filename : string) : option string :=
  files w !! filename ≫= file_text.

(** The world after some more events. *)
Definition emits (es : list event) (w : world) : world :=
  World (listings w) (files w) (trace w ++ es).

(** The [(severity, message)] pairs of the well-formed lines, in file
    order. *)
Definition valid_entries (lines : list string) : list (string * string) :=
  omap parse_line lines.

(** Maximal runs, after the spec's words: consecutive pairs of one
    severity collapse into one group, a change of severity starts a new
    group, and order is kept. Written from the right, unlike the loop. *)
Fixpoint group_runs (es : list (string * string)) : list group :=
  match es with
  | [] => []
  | (t, m) :: es' =>
      match group_runs es' with
      | (t', ms) :: gs =>
          if bool_decide (t = t') then (t, m :: ms) :: gs
          else (t, [m]) :: (t', ms) :: gs
      | [] => [(t, [m])]
      end
  end.

(** The pairs a sequence of groups stands for. *)
Definition flatten (gs : list group) : list (string * string) :=
  gs ≫= λ g, pair g.1 <$> g.2.

(** A line that earns a diagnostic: not empty, and rejected. *)
Definition malformed (l : string) : bool :=
  negb (bool_decide (l = "")) && negb (bool_decide (is_Some (parse_line l))).

(** The diagnostics one file's lines produce, in order. *)
Definition diagnostics (filename : string) (lines : list string) : list event :=
  (λ l, EvWritemsg (malformed_msg filename l)) <$> filter (λ l, malformed l = true) lines.

(** The files a trace opens and the files it tries to unlink, in order. *)
Definition opened (es : list event) : list string :=
  omap (λ e, match e with EvOpen fn => Some fn | _ => None end) es.

Definition unlink_attempts (es : list event) : list string :=
  omap (λ e, match e with EvUnlink fn => Some fn | _ => None end) es.

(** Two ways for a line to be unfit: its first whitespace-delimited
    token is no severity, or it has no blank, hence no message part
    after one. *)
Definition unrecognized_token (l : string) : Prop :=
  ∃ t, Text.first_token l = Some t ∧ t ∉ _log_levels.

Definition no_message_part (l : string) : Prop :=
  Text.has_char Text.sp_char l = false.

Section ParserObservations.

Variable EBUILD_PHASES : list string.

(** Every listed file with a phase name can be opened and read. *)
Definition all_readable (path : string) (names : list string) (w : world) : Prop :=
  ∀ n, n ∈ names → n ∈ EBUILD_PHASES →
    is_Some (text_of w (Text.path_join path n)).

(** The events of visiting one listed name: a rejection, or the opening
    of the file followed by the diagnostics of its lines. *)
Definition visit_events (path : string) (w : world) (name : string) : list event :=
  let filename := Text.path_join path name in
  if bool_decide (name ∈ EBUILD_PHASES)
  then EvOpen filename
       :: diagnostics filename
            (Text.split Text.nl_char (default "" (text_of w filename)))
  else [EvWritemsg (invalid_file_msg filename)].

(** What visiting one listed name does to [logentries]: a phase name
    gains the runs of its file after what it already had, any other name
    changes nothing. *)
Definition absorb (path : string) (w : world)
    (le : gmap string (list group)) (name : string)
    : gmap string (list group) :=
  let filename := Text.path_join path name in
  if bool_decide (name ∈ EBUILD_PHASES)
  then <[name := default [] (le !! name)
                 ++ group_runs (valid_entries
                      (Text.split Text.nl_char
                         (default "" (text_of w filename))))]> le
  else le.

End ParserObservations.

(** ** Sample inputs *)

Definition sample_phases : list string := ["compile"; "install"].

Definition unlines (ls : list string) : string :=
  foldr (λ l acc, l +:+ Text.nl +:+ acc) "" ls.

(** A directory holding the log of the spec's grouping example under
    "compile", a log with a bogus line and one without a blank under
    "install", and a file that is no phase; "install" cannot be unlinked,
    and a fourth listed name, "gone", is no longer on disk. *)
Definition sample_world : world :=
  World {[ "/elog" := ["compile"; "not_a_phase"; "install"; "gone"] ]}
        {[ "/elog/compile" :=
             File (Some (unlines ["INFO a"; "INFO b"; "WARN c"; "WARN d"; "INFO e"])) true;
           "/elog/install" :=
             File (Some (unlines ["INFO a"; "BOGUS x"; "INFO b"; "WARNING"; "QA c"])) false;
           "/elog/not_a_phase" := File (Some "ERROR never read") true ]}
        [].

Definition sample_calls : list call :=
  [ CallRecord "INFO" "m1" "build" (Some "pkg") None None;
    CallRecord "WARN" "m2" "install" (Some "pkg") None None;
    CallRecord "LOG" "m3" "other" None None (Some Stderr) ].

Definition sample_buffer : buffer :=
  foldl (run_call plain_colorize) ∅ sample_calls.

Definition sample_drains : list (option string * option (list string)) :=
  [ (Some "pkg", Some ["build"; "test"]); (Some "pkg", None); (None, None) ].

(** ** Further observations *)

(** One log line as the shell side writes it: the severity, one blank,
    the message. *)
Definition format_entry (e : string * string) : string :=
  e.1 +:+ String Text.sp_char e.2.

(** Whether a call is an [_elog_base] call, and the entry it appends to
    the bucket of a key and a phase, if it appends one there. *)
Definition is_record (c : call) : bool :=
  match c with
  | CallRecord _ _ _ _ _ _ => true
  | CallDrain _ _ => false
  end.

Definition appended_to (key : option string) (phase : string) (c : call)
    : option entry :=
  match c with
  | CallRecord level msg phase' key' _ _ =>
      if decide (key' = key ∧ phase' = phase) then Some (level, msg) else None
  | CallDrain _ _ => None
  end.

(** Every group of a mapping has a recognized severity and at least one
    message. *)
Definition groups_well_formed (le : gmap string (list group)) : Prop :=
  ∀ phase groups g, le !! phase = Some groups → g ∈ groups →
    g.1 ∈ _log_levels ∧ g.2 ≠ [].

(** A world for the edge cases: "/q" lists one phase file without a
    well-formed line, "/r" lists a phase file that cannot be opened. *)
Definition edge_world : world :=
  World {[ "/q" := ["install"]; "/r" := ["compile"; "install"] ]}
        {[ "/q/install" := File (Some (unlines ["no severity here"; ""])) true;
           "/r/compile" := File (Some (unlines ["INFO a"])) true;
           "/r/install" := File None true ]}
        [].

(** The carriage return, [chr(13)]. *)
Definition cr_char : ascii := ascii_of_nat 13.

(** What [io.open(..., mode="r")] with its default [newline=None] does
    to the decoded content on reading: a carriage return followed by a
    newline, and a carriage return alone, each become one newline. *)
Fixpoint universal_newlines (s : string) : string :=
  match s with
  | EmptyString => EmptyString
  | String c s' =>
      if Ascii.eqb c cr_char
      then match s' with
           | String d s'' =>
               if Ascii.eqb d Text.nl_char
               then String Text.nl_char (universal_newlines s'')
               else String Text.nl_char (universal_newlines s')
           | EmptyString => String Text.nl_char EmptyString
           end
      else String c (universal_newlines s')
  end.



(** * Facts about the text helpers *)

Lemma split1_cases sep s :
  (Text.has_char sep s = false ∧ Text.split1 sep s = [s])
  ∨ (∃ a b, Text.split1 sep s = [a; b] ∧ s = a +:+ String sep b
            ∧ Text.has_char sep a = false).
Proof.
  induction s as [|c s IH]; simpl; [by left|].
  destruct (Ascii.eqb_spec c sep) as [->|Hne]; simpl.
  - right. by exists EmptyString, s.
  - destruct IH as [[Hno ->]|(a & b & -> & -> & Hno)]; [by left|].
    right. exists (String c a), b. simpl.
    by destruct (Ascii.eqb_spec c sep).
Qed.

Lemma parse_line_Some l t m :
  parse_line l = Some (t, m) →
  l = t +:+ String Text.sp_char m ∧ t ∈ _log_levels.
Proof.
  unfold parse_line.
  destruct (split1_cases Text.sp_char l) as [[_ Hs]|(a & b & Hs & -> & _)];
    change (ascii_of_nat 32) with Text.sp_char in *;
    change " "%char with Text.sp_char; rewrite Hs; [done|].
  case_bool_decide; [|done]. by intros [= -> ->].
Qed.

Lemma parse_line_empty : parse_line "" = None.
Proof. reflexivity. Qed.

Lemma parse_line_no_blank l : no_message_part l → parse_line l = None.
Proof.
  unfold no_message_part, parse_line. intros Hl.
  destruct (split1_cases Text.sp_char l) as [[_ Hs]|(a & b & _ & -> & _)].
  - change " "%char with Text.sp_char. by rewrite Hs.
  - exfalso. clear -Hl. induction a as [|c a IH]; simpl in Hl.
    + done.
    + apply orb_false_iff in Hl as [_ Hl]. by apply IH.
Qed.

Lemma first_token_of_level t m :
  t ∈ _log_levels → Text.first_token (t +:+ String Text.sp_char m) = Some t.
Proof.
  unfold _log_levels. rewrite !elem_of_union, !elem_of_singleton.
  intros [[[[->| ->]| ->]| ->]| ->]; reflexivity.
Qed.

Lemma parse_line_unrecognized l : unrecognized_token l → parse_line l = None.
Proof.
  intros (t & Ht & Hlevel).
  destruct (parse_line l) as [[t' m]|] eqn:Hl; [|done].
  apply parse_line_Some in Hl as [-> Ht'].
  rewrite (first_token_of_level _ _ Ht') in Ht. by simplify_eq.
Qed.

(** * Facts about the world and the loops *)

Lemma emits_nil w : emits [] w = w.
Proof. destruct w. unfold emits. simpl. by rewrite (right_id_L [] (++)). Qed.

Lemma emits_app es1 es2 w : emits es2 (emits es1 w) = emits (es1 ++ es2) w.
Proof. unfold emits. simpl. by rewrite (assoc_L (++)). Qed.

Lemma emit_emits e es w : emits es (emit e w) = emits (e :: es) w.
Proof. apply (emits_app [e]). Qed.

Lemma text_of_emits es w fn : text_of (emits es w) fn = text_of w fn.
Proof. reflexivity. Qed.

Lemma io_bind_run {A B} (m : io A) (f : A → io B) w :
  (m ≫= f) w
  = match m w with
    | (Return a, w') => f a w'
    | (Raise e, w') => (Raise e, w')
    end.
Proof. reflexivity. Qed.

Lemma for_each_cons {A S} (x : A) xs (body : S → A → io S) s w :
  for_each (x :: xs) body s w
  = match body s x w with
    | (Return s', w') => for_each xs body s' w'
    | (Raise e, w') => (Raise e, w')
    end.
Proof. reflexivity. Qed.

Lemma diagnostics_cons fn l lines :
  diagnostics fn (l :: lines)
  = if malformed l then EvWritemsg (malformed_msg fn l) :: diagnostics fn lines
    else diagnostics fn lines.
Proof.
  unfold diagnostics. rewrite filter_cons.
  destruct (malformed l); by case_decide.
Qed.

Lemma diagnostics_app fn ls1 ls2 :
  diagnostics fn (ls1 ++ ls2) = diagnostics fn ls1 ++ diagnostics fn ls2.
Proof. unfold diagnostics. by rewrite filter_app, fmap_app. Qed.

Lemma valid_entries_cons l lines :
  valid_entries (l :: lines)
  = match parse_line l with
    | Some e => e :: valid_entries lines
    | None => valid_entries lines
    end.
Proof. reflexivity. Qed.

(** An empty line changes nothing and says nothing. *)
Lemma line_body_empty fn mf st w : line_body fn mf st "" w = (Return st, w).
Proof. reflexivity. Qed.

(** A rejected line changes nothing and earns one diagnostic. *)
Lemma line_body_malformed fn mf st l w :
  l ≠ "" → parse_line l = None →
  line_body fn mf st l w
  = (Return st, emit (EvWritemsg (malformed_msg fn l)) w).
Proof.
  intros Hl Hp. unfold line_body. rewrite bool_decide_eq_false_2 by done.
  by rewrite Hp.
Qed.

(** A well-formed line joins the pending block or closes it. *)
Lemma line_body_valid fn mf st l t m w :
  parse_line l = Some (t, m) →
  line_body fn mf st l w
  = (Return
       (if bool_decide (t = default t (lastmsgtype st))
        then ParseState (Some t) (msgcontent st ++ [m]) (logentries st)
        else ParseState (Some t) [m]
               (if bool_decide (msgcontent st = []) then logentries st
                else append_group mf (default t (lastmsgtype st), msgcontent st)
                                  (logentries st))),
     w).
Proof.
  intros Hp. unfold line_body.
  rewrite bool_decide_eq_false_2 by (by intros ->). rewrite Hp.
  by case_bool_decide.
Qed.

Lemma malformed_true l : l ≠ "" → parse_line l = None → malformed l = true.
Proof.
  intros Hl Hp. unfold malformed.
  rewrite bool_decide_eq_false_2 by done. rewrite Hp.
  rewrite bool_decide_eq_false_2; [done|]. by intros [? ?].
Qed.

Lemma malformed_valid l e : parse_line l = Some e → malformed l = false.
Proof.
  intros Hp. unfold malformed. rewrite Hp.
  rewrite (bool_decide_eq_true_2 (is_Some _)) by done. apply andb_false_r.
Qed.

Lemma valid_nonempty l e : parse_line l = Some e → l ≠ "".
Proof. by intros Hp ->. Qed.

(** *** Runs *)

Lemma group_runs_head t m es :
  ∃ ms gs, group_runs ((t, m) :: es) = (t, ms) :: gs.
Proof.
  simpl. destruct (group_runs es) as [|[t' ms] gs]; [by eexists _, _|].
  case_bool_decide; by eexists _, _.
Qed.

(** A block of one severity in front of a sequence joins its first run or
    stands before it. *)
Lemma group_runs_block t c cur es :
  group_runs ((pair t <$> c :: cur) ++ es)
  = match group_runs es with
    | (t', ms) :: gs =>
        if bool_decide (t = t') then (t, (c :: cur) ++ ms) :: gs
        else (t, c :: cur) :: (t', ms) :: gs
    | [] => [(t, c :: cur)]
    end.
Proof.
  revert c. induction cur as [|c' cur IH]; intros c.
  - simpl. destruct (group_runs es) as [|[t' ms] gs]; [done|].
    by case_bool_decide.
  - rewrite fmap_cons. change ((pair t c :: (pair t <$> c' :: cur)) ++ es)
      with ((t, c) :: ((pair t <$> c' :: cur) ++ es)).
    cbn [group_runs]. rewrite IH.
    destruct (group_runs es) as [|[t' ms] gs].
    + by rewrite bool_decide_eq_true_2.
    + case_bool_decide; by rewrite bool_decide_eq_true_2.
Qed.

Lemma group_runs_block_other t c cur t' m es :
  t' ≠ t →
  group_runs ((pair t <$> c :: cur) ++ (t', m) :: es)
  = (t, c :: cur) :: group_runs ((t', m) :: es).
Proof.
  intros Hne. rewrite group_runs_block.
  destruct (group_runs_head t' m es) as (ms & gs & ->).
  by rewrite bool_decide_eq_false_2.
Qed.

Lemma alter_append_twice (mf : string) (g1 g2 : list group)
    (le : gmap string (list group)) :
  alter (λ gs, gs ++ g2) mf (alter (λ gs, gs ++ g1) mf le)
  = alter (λ gs, gs ++ (g1 ++ g2)) mf le.
Proof.
  rewrite alter_alter_eq. apply alter_ext. intros gs _. simpl.
  by rewrite (assoc_L (++)).
Qed.

(** The loop over the lines, once a first well-formed line has been seen:
    the lines add the runs of the pending block followed by their own
    entries. *)
Lemma lines_loop_started fn mf lines : ∀ t c cur le w,
  ∃ st, for_each lines (line_body fn mf) (ParseState (Some t) (c :: cur) le) w
        = (Return st, emits (diagnostics fn lines) w)
    ∧ final_flush mf st
      = alter (λ gs, gs ++ group_runs ((pair t <$> c :: cur)
                                        ++ valid_entries lines)) mf le.
Proof.
  induction lines as [|l lines IH]; intros t c cur le w.
  - eexists. split; [by rewrite emits_nil|].
    change (valid_entries []) with (@nil (string * string)).
    by rewrite (group_runs_block t c cur []).
  - rewrite for_each_cons, diagnostics_cons, valid_entries_cons.
    destruct (decide (l = "")) as [->|Hl].
    { rewrite line_body_empty. apply IH. }
    destruct (parse_line l) as [[t' m]|] eqn:Hp.
    + rewrite (malformed_valid _ _ Hp), (line_body_valid _ _ _ _ _ _ _ Hp).
      cbn [lastmsgtype msgcontent logentries default from_option app]. unfold id.
      case_bool_decide as Ht.
      * subst t'.
        destruct (IH t c (cur ++ [m]) le w) as (st & -> & Hflush).
        exists st. split; [done|]. rewrite Hflush. do 3 f_equal.
        rewrite !fmap_cons, fmap_app. simpl.
        by rewrite <-(assoc_L (++)).
      * rewrite bool_decide_eq_false_2 by done.
        destruct (IH t' m [] (append_group mf (t, c :: cur) le) w)
          as (st & -> & Hflush).
        exists st. split; [done|]. rewrite Hflush. unfold append_group.
        rewrite alter_append_twice.
        by rewrite (group_runs_block_other t c cur t' m _ Ht).
    + rewrite (malformed_true _ Hl Hp), (line_body_malformed _ _ _ _ _ Hl Hp).
      destruct (IH t c cur le (emit (EvWritemsg (malformed_msg fn l)) w))
        as (st & -> & Hflush).
      exists st. split; [by rewrite emit_emits|done].
Qed.

(** The loop over the lines of a file from its initial state. *)
Lemma lines_loop fn mf lines : ∀ le w,
  ∃ st, for_each lines (line_body fn mf) (ParseState None [] le) w
        = (Return st, emits (diagnostics fn lines) w)
    ∧ final_flush mf st
      = alter (λ gs, gs ++ group_runs (valid_entries lines)) mf le.
Proof.
  induction lines as [|l lines IH]; intros le w.
  - eexists. split; [by rewrite emits_nil|]. unfold final_flush. simpl.
    symmetry. apply alter_id. intros gs _. apply (right_id_L [] (++)).
  - rewrite for_each_cons, diagnostics_cons, valid_entries_cons.
    destruct (decide (l = "")) as [->|Hl].
    { rewrite line_body_empty. apply IH. }
    destruct (parse_line l) as [[t m]|] eqn:Hp.
    + rewrite (malformed_valid _ _ Hp), (line_body_valid _ _ _ _ _ _ _ Hp).
      cbn [lastmsgtype msgcontent logentries default from_option app]. unfold id.
      rewrite bool_decide_eq_true_2 by done.
      destruct (lines_loop_started fn mf lines t m [] le w)
        as (st & -> & Hflush).
      by exists st.
    + rewrite (malformed_true _ Hl Hp), (line_body_malformed _ _ _ _ _ Hl Hp).
      destruct (IH le (emit (EvWritemsg (malformed_msg fn l)) w))
        as (st & -> & Hflush).
      exists st. split; [by rewrite emit_emits|done].
Qed.

(** *** Runs, diagnostics and the cleanup loop *)

(** The cleanup loop never raises; it removes exactly the listed files
    that can be unlinked. *)
Lemma unlink_loop path names : ∀ w,
  ∃ w', for_each names (unlink_body path) () w = (Return (), w')
    ∧ listings w' = listings w
    ∧ trace w' = trace w ++ (EvUnlink ∘ Text.path_join path <$> names)
    ∧ ∀ fn, files w' !! fn
        = f ← files w !! fn;
          if bool_decide (fn ∈ Text.path_join path <$> names) && file_unlinkable f
          then None else Some f.
Proof.
  induction names as [|n names IH]; intros w.
  - exists w. split; [done|]. split; [done|].
    split; [simpl; by rewrite (right_id_L [] (++))|].
    intros fn. by destruct (files w !! fn).
  - rewrite for_each_cons. unfold unlink_body at 1, try_OSError, os_unlink.
    set (target := Text.path_join path n).
    destruct (files w !! target) as [f|] eqn:Hf;
      [destruct (file_unlinkable f) eqn:Hu|].
    + destruct (IH (World (listings w) (delete target (files w))
                          (trace w ++ [EvUnlink target])))
        as (w' & -> & Hl & Ht & Hfiles).
      exists w'. split; [done|]. split; [done|]. split.
      { rewrite Ht. simpl. by rewrite <-(assoc_L (++)). }
      intros fn. rewrite Hfiles. unfold emit. cbn [files]. rewrite fmap_cons.
      destruct (decide (fn = target)) as [->|Hne].
      * rewrite lookup_delete_eq, Hf. simpl.
        rewrite bool_decide_eq_true_2 by left. by rewrite Hu.
      * rewrite lookup_delete_ne by done.
        destruct (files w !! fn); simpl; [|done].
        by rewrite (bool_decide_ext _ _ (elem_of_cons _ _ _)),
          bool_decide_or, (bool_decide_eq_false_2 (fn = _)).
    + cbn [mret io_ret].
      destruct (IH (emit (EvUnlink target) w)) as (w' & -> & Hl & Ht & Hfiles).
      exists w'. split; [done|]. split; [done|]. split.
      { rewrite Ht. simpl. by rewrite <-(assoc_L (++)). }
      intros fn. rewrite Hfiles. unfold emit. cbn [files]. rewrite fmap_cons.
      destruct (files w !! fn) as [f'|] eqn:Hf'; simpl; [|done].
      destruct (decide (fn = target)) as [->|Hne].
      * assert (f' = f) as -> by congruence.
        by rewrite Hu, !andb_false_r.
      * by rewrite (bool_decide_ext _ _ (elem_of_cons _ _ _)),
          bool_decide_or, (bool_decide_eq_false_2 (fn = _)).
    + cbn [mret io_ret].
      destruct (IH (emit (EvUnlink target) w)) as (w' & -> & Hl & Ht & Hfiles).
      exists w'. split; [done|]. split; [done|]. split.
      { rewrite Ht. simpl. by rewrite <-(assoc_L (++)). }
      intros fn. rewrite Hfiles. unfold emit. cbn [files]. rewrite fmap_cons.
      destruct (files w !! fn) as [f'|] eqn:Hf'; simpl; [|done].
      destruct (decide (fn = target)) as [->|Hne]; [congruence|].
      by rewrite (bool_decide_ext _ _ (elem_of_cons _ _ _)),
        bool_decide_or, (bool_decide_eq_false_2 (fn = _)).
Qed.

Lemma flatten_cons t ms gs : flatten ((t, ms) :: gs) = (pair t <$> ms) ++ flatten gs.
Proof. reflexivity. Qed.

Lemma flatten_group_runs es : flatten (group_runs es) = es.
Proof.
  induction es as [|[t m] es IH]; [done|]. cbn [group_runs].
  destruct (group_runs es) as [|[t' ms] gs]; [by rewrite <-IH|].
  case_bool_decide as Ht.
  - subst t'. rewrite flatten_cons in *. rewrite <-IH. done.
  - by rewrite flatten_cons, IH.
Qed.

Lemma group_runs_nonempty es g : g ∈ group_runs es → g.2 ≠ [].
Proof.
  revert g. induction es as [|[t m] es IH]; intros g; cbn [group_runs].
  - by intros ?%elem_of_nil.
  - destruct (group_runs es) as [|[t' ms] gs].
    + by intros ->%list_elem_of_singleton.
    + case_bool_decide.
      * rewrite elem_of_cons. intros [->|Hg]; [done|]. apply IH. by right.
      * rewrite elem_of_cons. intros [->|Hg]; [done|]. by apply IH.
Qed.

Lemma group_runs_adjacent es i g g' :
  group_runs es !! i = Some g → group_runs es !! S i = Some g' → g.1 ≠ g'.1.
Proof.
  revert i g g'. induction es as [|[t m] es IH]; intros i g g'; cbn [group_runs].
  - by rewrite lookup_nil.
  - destruct (group_runs es) as [|[t' ms] gs] eqn:Hes.
    + by destruct i as [|[|i]].
    + case_bool_decide as Ht.
      * destruct i as [|i]; simpl.
        -- intros [= <-] Hg'. subst t'. by apply (IH 0 (t, ms) g').
        -- intros Hg Hg'. by apply (IH (S i) g g').
      * destruct i as [|i]; simpl.
        -- by intros [= <-] [= <-].
        -- intros Hg Hg'. by apply (IH i g g').
Qed.

Lemma valid_entries_app ls1 ls2 :
  valid_entries (ls1 ++ ls2) = valid_entries ls1 ++ valid_entries ls2.
Proof. apply omap_app. Qed.

Lemma valid_entries_nonempty lines :
  valid_entries (filter (λ l, l ≠ "") lines) = valid_entries lines.
Proof.
  induction lines as [|l lines IH]; [done|]. rewrite filter_cons.
  destruct (decide (l = "")) as [->|Hl].
  - rewrite decide_False by (by intros ?).
    by rewrite valid_entries_cons, parse_line_empty.
  - rewrite decide_True by done. by rewrite !valid_entries_cons, IH.
Qed.

Lemma diagnostics_open_nothing fn lines :
  opened (diagnostics fn lines) = [] ∧ unlink_attempts (diagnostics fn lines) = [].
Proof.
  unfold diagnostics. induction (filter _ lines) as [|l ls [IH1 IH2]]; [done|].
  by rewrite fmap_cons.
Qed.

Lemma unlinks_attempted (fns : list string) :
  unlink_attempts (EvUnlink <$> fns) = fns.
Proof. induction fns as [|fn fns IH]; [done|]. by rewrite fmap_cons; cbn; f_equal. Qed.

Section ParserFacts.

Variable EBUILD_PHASES : list string.

Lemma file_body_run path le name w :
  (name ∈ EBUILD_PHASES → is_Some (text_of w (Text.path_join path name))) →
  file_body EBUILD_PHASES path le name w
  = (Return (absorb EBUILD_PHASES path w le name),
     emits (visit_events EBUILD_PHASES path w name) w).
Proof.
  intros Hread. unfold file_body, absorb, visit_events.
  case_bool_decide as Hname; [|done].
  destruct (Hread Hname) as [text Htext]. rewrite Htext.
  rewrite io_bind_run. unfold read_file. fold (text_of w (Text.path_join path name)).
  rewrite Htext. rewrite io_bind_run.
  edestruct lines_loop as (st & -> & Hflush).
  cbn [mret io_ret default from_option]. unfold id.
  rewrite emit_emits. f_equal. rewrite Hflush.
  destruct (le !! name) as [gs|] eqn:Hle.
  - rewrite <-(insert_id le _ _ Hle) at 1. by rewrite alter_insert_eq.
  - by rewrite alter_insert_eq.
Qed.

Lemma all_readable_cons path n names w :
  all_readable EBUILD_PHASES path (n :: names) w →
  (n ∈ EBUILD_PHASES → is_Some (text_of w (Text.path_join path n)))
  ∧ all_readable EBUILD_PHASES path names w.
Proof.
  intros Hall. split.
  - apply Hall. by left.
  - intros n' Hn'. apply Hall. by right.
Qed.

(** The loop over the listed names. *)
Lemma files_loop path names : ∀ le w,
  all_readable EBUILD_PHASES path names w →
  for_each names (file_body EBUILD_PHASES path) le w
  = (Return (foldl (absorb EBUILD_PHASES path w) le names),
     emits (names ≫= visit_events EBUILD_PHASES path w) w).
Proof.
  induction names as [|n names IH]; intros le w Hall.
  - by rewrite emits_nil.
  - apply all_readable_cons in Hall as [Hn Hall].
    rewrite for_each_cons, (file_body_run _ _ _ _ Hn).
    rewrite (IH _ (emits _ w)) by exact Hall.
    by rewrite emits_app.
Qed.

Lemma all_readable_reverse path names w :
  all_readable EBUILD_PHASES path names w →
  all_readable EBUILD_PHASES path (reverse names) w.
Proof. intros Hall n Hn. apply Hall. by apply elem_of_reverse. Qed.

(** The whole call, when every listed phase file can be read. *)
Lemma collect_run path w names :
  listings w !! path = Some names →
  all_readable EBUILD_PHASES path names w →
  ∃ w', collect_ebuild_messages EBUILD_PHASES path w
        = (Return (foldl (absorb EBUILD_PHASES path w) ∅ (reverse names)), w')
    ∧ listings w' = listings w
    ∧ trace w' = trace w
        ++ (reverse names ≫= visit_events EBUILD_PHASES path w)
        ++ (EvUnlink ∘ Text.path_join path <$> reverse names)
    ∧ ∀ fn, files w' !! fn
        = f ← files w !! fn;
          if bool_decide (fn ∈ Text.path_join path <$> names) && file_unlinkable f
          then None else Some f.
Proof.
  intros Hlist Hall. unfold collect_ebuild_messages.
  rewrite io_bind_run. unfold try_OSError at 1.
  rewrite io_bind_run. unfold os_listdir. rewrite Hlist.
  cbn [mret io_ret].
  destruct names as [|n names].
  { exists w. split; [done|]. split; [done|]. split.
    - cbn. by rewrite (right_id_L [] (++)).
    - intros fn. by destruct (files w !! fn). }
  set (names' := reverse (n :: names)).
  rewrite io_bind_run, (files_loop path names') by by apply all_readable_reverse.
  rewrite io_bind_run.
  destruct (unlink_loop path names' (emits (names' ≫= visit_events EBUILD_PHASES path w) w))
    as (w' & -> & Hl & Ht & Hfiles).
  exists w'. split; [done|]. split; [done|]. split.
  - rewrite Ht. simpl. by rewrite <-(assoc_L (++)).
  - intros fn. rewrite Hfiles. simpl.
    destruct (files w !! fn); simpl; [|done].
    by rewrite (bool_decide_ext (fn ∈ _ <$> names') (fn ∈ _ <$> n :: names))
      by (unfold names'; by rewrite fmap_reverse, elem_of_reverse).
Qed.

(** *** The mapping built from the listed names *)

Lemma absorb_fold_None path w names n : ∀ le,
  n ∉ names ∨ n ∉ EBUILD_PHASES →
  foldl (absorb EBUILD_PHASES path w) le names !! n = le !! n.
Proof.
  induction names as [|n' names IH]; intros le Hn; [done|]. simpl.
  rewrite IH.
  - unfold absorb. case_bool_decide as Hv; [|done].
    apply lookup_insert_ne. intros <-.
    destruct Hn as [Hn|Hn]; [|done]. apply Hn. by left.
  - destruct Hn as [Hn|Hn]; [left|by right]. by apply not_elem_of_cons in Hn as [_ ?].
Qed.

Lemma absorb_fold_Some path w names n : ∀ le,
  NoDup names → n ∈ names → n ∈ EBUILD_PHASES →
  foldl (absorb EBUILD_PHASES path w) le names !! n
  = Some (default [] (le !! n)
          ++ group_runs (valid_entries
               (Text.split Text.nl_char
                  (default "" (text_of w (Text.path_join path n)))))).
Proof.
  induction names as [|n' names IH]; intros le Hnd Hn Hv.
  - by apply elem_of_nil in Hn.
  - apply NoDup_cons in Hnd as [Hn' Hnd]. simpl.
    apply elem_of_cons in Hn as [->|Hn].
    + rewrite absorb_fold_None by by left.
      unfold absorb. rewrite bool_decide_eq_true_2 by done.
      apply lookup_insert_eq.
    + rewrite IH by done. unfold absorb at 1.
      case_bool_decide; [|done]. rewrite lookup_insert_ne; [done|].
      by intros ->.
Qed.

Lemma visit_opened path w names :
  opened (names ≫= visit_events EBUILD_PHASES path w)
  = Text.path_join path <$> filter (λ n, n ∈ EBUILD_PHASES) names.
Proof.
  induction names as [|n names IH]; [done|].
  rewrite bind_cons. unfold opened in *. rewrite omap_app, IH, filter_cons.
  unfold visit_events at 1. case_bool_decide as Hv.
  - rewrite decide_True by done. rewrite fmap_cons. cbn [omap list_omap].
    fold (opened (diagnostics (Text.path_join path n)
      (Text.split Text.nl_char (default "" (text_of w (Text.path_join path n)))))).
    by rewrite (proj1 (diagnostics_open_nothing _ _)).
  - by rewrite decide_False.
Qed.

Lemma visit_no_unlink path w names :
  unlink_attempts (names ≫= visit_events EBUILD_PHASES path w) = [].
Proof.
  induction names as [|n names IH]; [done|].
  rewrite bind_cons. unfold unlink_attempts in *. rewrite omap_app, IH.
  unfold visit_events. case_bool_decide; [|done]. cbn [omap list_omap].
  fold (unlink_attempts (diagnostics (Text.path_join path n)
    (Text.split Text.nl_char (default "" (text_of w (Text.path_join path n)))))).
  by rewrite (proj2 (diagnostics_open_nothing _ _)).
Qed.

Lemma absorb_fold_ext path w w2 names : ∀ le,
  (∀ fn, text_of w2 fn = text_of w fn) →
  foldl (absorb EBUILD_PHASES path w2) le names
  = foldl (absorb EBUILD_PHASES path w) le names.
Proof.
  induction names as [|n names IH]; intros le Htext; [done|]. simpl.
  rewrite IH by done. unfold absorb at 2 4. by rewrite Htext.
Qed.

(** *** The paths that parse nothing *)

(** X1: a directory that cannot be listed, or lists nothing, gives the
    empty mapping and touches nothing: no diagnostic is written, no file
    is opened or unlinked. *)
Lemma collect_nothing_listed path w :
  listings w !! path = None ∨ listings w !! path = Some [] →
  collect_ebuild_messages EBUILD_PHASES path w = (Return ∅, w).
Proof.
  intros Hlist. unfold collect_ebuild_messages.
  rewrite io_bind_run. unfold try_OSError, os_listdir. rewrite io_bind_run.
  by destruct Hlist as [-> | ->].
Qed.

(** A phase file that cannot be opened stops the call. *)
Lemma file_body_raises path le name w :
  name ∈ EBUILD_PHASES →
  text_of w (Text.path_join path name) = None →
  file_body EBUILD_PHASES path le name w
  = (Raise OSError, emit (EvOpen (Text.path_join path name)) w).
Proof.
  intros Hname Htext. unfold file_body.
  rewrite bool_decide_eq_true_2 by done.
  rewrite io_bind_run. unfold read_file.
  fold (text_of w (Text.path_join path name)). by rewrite Htext.
Qed.

Lemma files_loop_raises path names n : ∀ le w,
  n ∈ names → n ∈ EBUILD_PHASES →
  text_of w (Text.path_join path n) = None →
  ∃ w', for_each names (file_body EBUILD_PHASES path) le w = (Raise OSError, w')
    ∧ files w' = files w
    ∧ unlink_attempts (trace w') = unlink_attempts (trace w).
Proof.
  induction names as [|n0 names IH]; intros le w Hin Hn Htext.
  - by apply elem_of_nil in Hin.
  - rewrite for_each_cons.
    destruct (decide (n0 ∈ EBUILD_PHASES
                      ∧ text_of w (Text.path_join path n0) = None))
      as [[Hn0 Htext0]|Hok].
    + rewrite (file_body_raises _ _ _ _ Hn0 Htext0).
      eexists. split; [done|]. split; [done|]. unfold emit. cbn [trace].
      unfold unlink_attempts. rewrite omap_app. cbn [omap list_omap].
      by rewrite (right_id_L [] (++)).
    + rewrite file_body_run.
      * apply elem_of_cons in Hin as [->|Hin]; [by destruct Hok|].
        destruct (IH (absorb EBUILD_PHASES path w le n0)
                    (emits (visit_events EBUILD_PHASES path w n0) w) Hin Hn Htext)
          as (w' & -> & Hf & Ht).
        exists w'. split; [done|]. split; [done|]. rewrite Ht.
        unfold emits. cbn [trace].
        unfold unlink_attempts at 1. rewrite omap_app.
        pose proof (visit_no_unlink path w [n0]) as Hvisit.
        change ([n0] ≫= visit_events EBUILD_PHASES path w)
          with (visit_events EBUILD_PHASES path w n0 ++ []) in Hvisit.
        rewrite (right_id_L [] (++)) in Hvisit.
        unfold unlink_attempts in Hvisit at 1. rewrite Hvisit.
        by rewrite (right_id_L [] (++)).
      * intros Hn0. destruct (text_of w (Text.path_join path n0)) eqn:Htext0; [done|].
        by destruct Hok.
Qed.

(** X2: when a listed phase file cannot be opened the call raises
    [OSError] ([io.open] stands outside every [try]); this happens before
    the cleanup, so no file is unlinked and the disk is as before. *)
Lemma collect_raises_on_unreadable path w names n :
  listings w !! path = Some names →
  n ∈ names → n ∈ EBUILD_PHASES →
  text_of w (Text.path_join path n) = None →
  ∃ w', collect_ebuild_messages EBUILD_PHASES path w = (Raise OSError, w')
    ∧ files w' = files w
    ∧ unlink_attempts (trace w') = unlink_attempts (trace w).
Proof.
  intros Hlist Hin Hn Htext. unfold collect_ebuild_messages.
  rewrite io_bind_run. unfold try_OSError at 1.
  rewrite io_bind_run. unfold os_listdir. rewrite Hlist.
  cbn [mret io_ret].
  destruct names as [|n0 names]; [by apply elem_of_nil in Hin|].
  rewrite io_bind_run.
  destruct (files_loop_raises path (reverse (n0 :: names)) n ∅ w)
    as (w' & -> & Hf & Ht); [by apply elem_of_reverse|done|done|].
  by exists w'.
Qed.

(** * The claims on the phase-log parser *)

(** C1: for every log file under a valid phase name,
    [collect_ebuild_messages] returns for that phase the maximal runs of
    the file's well-formed lines: the groups, read in order, give back
    the [(severity, message)] pairs in file order, no group is empty and
    neighbouring groups differ in severity. A file with the lines
    [INFO a], [INFO b], [WARN c], [WARN d], [INFO e] yields
    [(INFO,[a,b]), (WARN,[c,d]), (INFO,[e])] in that order. *)
Theorem collect_groups_maximal_runs path w names phase text :
  listings w !! path = Some names →
  NoDup names →
  all_readable EBUILD_PHASES path names w →
  phase ∈ names →
  phase ∈ EBUILD_PHASES →
  text_of w (Text.path_join path phase) = Some text →
  ∃ le w' groups,
    collect_ebuild_messages EBUILD_PHASES path w = (Return le, w')
    ∧ le !! phase = Some groups
    ∧ groups = group_runs (valid_entries (Text.split Text.nl_char text))
    ∧ flatten groups = valid_entries (Text.split Text.nl_char text)
    ∧ (∀ g, g ∈ groups → g.2 ≠ [])
    ∧ (∀ i g g', groups !! i = Some g → groups !! S i = Some g' → g.1 ≠ g'.1)
    ∧ (filter (λ l, l ≠ "") (Text.split Text.nl_char text)
         = ["INFO a"; "INFO b"; "WARN c"; "WARN d"; "INFO e"] →
       groups = [("INFO", ["a"; "b"]); ("WARN", ["c"; "d"]); ("INFO", ["e"])]).
Proof.
  intros Hlist Hnd Hall Hin Hphase Htext.
  destruct (collect_run path w names Hlist Hall) as (w' & Hrun & _).
  eexists _, w', _. split; [exact Hrun|]. split.
  { rewrite absorb_fold_Some; [|by rewrite reverse_Permutation|by apply elem_of_reverse|done].
    rewrite lookup_empty, Htext. done. }
  split; [done|]. split; [apply flatten_group_runs|].
  split; [apply group_runs_nonempty|]. split; [apply group_runs_adjacent|].
  intros Hlines. cbn [default from_option]. unfold id.
  by rewrite <-valid_entries_nonempty, Hlines.
Qed.

(** C5 (as amended): a listed file whose name is no recognized phase is
    rejected: a diagnostic names it, it is not opened (the files opened
    are those of the phase names) and the returned mapping has no entry
    for it. It is not left alone, though: the cleanup sweep tries to
    unlink it like every listed file, and after the call it is gone from
    the disk unless that unlink fails. *)
Theorem invalid_phase_file_rejected_and_swept path w names name :
  listings w !! path = Some names →
  all_readable EBUILD_PHASES path names w →
  name ∈ names →
  name ∉ EBUILD_PHASES →
  ∃ le w' evs,
    collect_ebuild_messages EBUILD_PHASES path w = (Return le, w')
    ∧ trace w' = trace w ++ evs
    ∧ le !! name = None
    ∧ EvWritemsg (invalid_file_msg (Text.path_join path name)) ∈ evs
    ∧ opened evs
      = Text.path_join path <$> filter (λ n, n ∈ EBUILD_PHASES) (reverse names)
    ∧ Text.path_join path name ∈ unlink_attempts evs
    ∧ files w' !! Text.path_join path name
      = f ← files w !! Text.path_join path name;
        if file_unlinkable f then None else Some f.
Proof.
  intros Hlist Hall Hin Hname.
  destruct (collect_run path w names Hlist Hall) as (w' & Hrun & _ & Ht & Hf).
  eexists _, w', _. split; [exact Hrun|]. split; [exact Ht|].
  split; [by rewrite absorb_fold_None, lookup_empty by by right|].
  split; [|split; [|split]].
  - apply elem_of_app. left. apply list_elem_of_bind. exists name.
    split; [|by apply elem_of_reverse].
    unfold visit_events. rewrite bool_decide_eq_false_2 by done. by left.
  - unfold opened. rewrite omap_app. fold (opened (reverse names ≫= visit_events EBUILD_PHASES path w)).
    rewrite visit_opened, list_fmap_compose.
    assert (∀ fns : list string, omap (λ e, match e with EvOpen fn => Some fn | _ => None end) (EvUnlink <$> fns) = []) as ->;
      [|by rewrite (right_id_L [] (++))].
    intros fns. induction fns as [|fn fns IH]; [done|]. by rewrite fmap_cons.
  - unfold unlink_attempts. rewrite omap_app.
    fold (unlink_attempts (reverse names ≫= visit_events EBUILD_PHASES path w)).
    rewrite visit_no_unlink, list_fmap_compose.
    fold (unlink_attempts (EvUnlink <$> (Text.path_join path <$> reverse names))).
    rewrite unlinks_attempted. apply list_elem_of_fmap_2. by apply elem_of_reverse.
  - rewrite Hf. destruct (files w !! _) as [f|]; [|done]. simpl.
    rewrite bool_decide_eq_true_2; [done|]. by apply list_elem_of_fmap_2.
Qed.

(** C6 (as amended): provided every listed file with a phase name can
    be opened, [collect_ebuild_messages] parses them and then tries to
    unlink every name of the original listing, names that are no phase
    included and whatever the lines of each file were; it returns
    without raising whether or not an unlink fails, and the mapping it
    returns is the same in every world with the same listing and the
    same file texts, whichever files can be unlinked there. *)
Theorem cleanup_sweeps_every_listed_file path w names :
  listings w !! path = Some names →
  all_readable EBUILD_PHASES path names w →
  ∃ le w' evs,
    collect_ebuild_messages EBUILD_PHASES path w = (Return le, w')
    ∧ trace w' = trace w ++ evs
    ∧ unlink_attempts evs = Text.path_join path <$> reverse names
    ∧ (∀ fn, files w' !! fn
         = f ← files w !! fn;
           if bool_decide (fn ∈ Text.path_join path <$> names) && file_unlinkable f
           then None else Some f)
    ∧ ∀ w2, listings w2 !! path = Some names →
        (∀ fn, text_of w2 fn = text_of w fn) →
        (collect_ebuild_messages EBUILD_PHASES path w2).1 = Return le.
Proof.
  intros Hlist Hall.
  destruct (collect_run path w names Hlist Hall) as (w' & Hrun & _ & Ht & Hf).
  eexists _, w', _. split; [exact Hrun|]. split; [exact Ht|]. split; [|split].
  - unfold unlink_attempts. rewrite omap_app.
    fold (unlink_attempts (reverse names ≫= visit_events EBUILD_PHASES path w)).
    rewrite visit_no_unlink, list_fmap_compose.
    fold (unlink_attempts (EvUnlink <$> (Text.path_join path <$> reverse names))).
    by rewrite unlinks_attempted.
  - exact Hf.
  - intros w2 Hlist2 Htext.
    assert (all_readable EBUILD_PHASES path names w2) as Hall2.
    { intros n Hn Hv. rewrite Htext. by apply Hall. }
    destruct (collect_run path w2 names Hlist2 Hall2) as (w2' & -> & _).
    simpl. f_equal. by apply absorb_fold_ext.
Qed.

(** C7: in a phase log file, a non-empty line whose first
    whitespace-delimited token is no recognized severity, or that has no
    blank and so no message part, is skipped with a diagnostic naming it
    and enters no group; the well-formed lines before and after it are
    grouped as if the line were not there. *)
Theorem malformed_line_skipped path w names phase text pre bad post :
  listings w !! path = Some names →
  NoDup names →
  all_readable EBUILD_PHASES path names w →
  phase ∈ names →
  phase ∈ EBUILD_PHASES →
  text_of w (Text.path_join path phase) = Some text →
  Text.split Text.nl_char text = pre ++ bad :: post →
  bad ≠ "" →
  unrecognized_token bad ∨ no_message_part bad →
  ∃ le w' groups before after,
    collect_ebuild_messages EBUILD_PHASES path w = (Return le, w')
    ∧ le !! phase = Some groups
    ∧ groups = group_runs (valid_entries pre ++ valid_entries post)
    ∧ flatten groups = valid_entries pre ++ valid_entries post
    ∧ trace w' = trace w ++ before
        ++ (EvOpen (Text.path_join path phase)
            :: diagnostics (Text.path_join path phase) pre
            ++ EvWritemsg (malformed_msg (Text.path_join path phase) bad)
            :: diagnostics (Text.path_join path phase) post)
        ++ after.
Proof.
  intros Hlist Hnd Hall Hin Hphase Htext Hlines Hbad Hunfit.
  assert (parse_line bad = None) as Hparse.
  { destruct Hunfit; [by apply parse_line_unrecognized|by apply parse_line_no_blank]. }
  destruct (collect_run path w names Hlist Hall) as (w' & Hrun & _ & Ht & _).
  apply elem_of_reverse, list_elem_of_split in Hin as (l1 & l2 & Hsplit).
  eexists _, w', _, (l1 ≫= visit_events EBUILD_PHASES path w),
    ((l2 ≫= visit_events EBUILD_PHASES path w)
     ++ (EvUnlink ∘ Text.path_join path <$> reverse names)).
  split; [exact Hrun|]. split.
  { rewrite absorb_fold_Some;
      [|by rewrite reverse_Permutation|rewrite Hsplit; set_solver|done].
    rewrite lookup_empty, Htext. cbn [default from_option]. unfold id.
    rewrite Hlines, valid_entries_app, valid_entries_cons, Hparse. done. }
  split; [done|]. split; [apply flatten_group_runs|].
  rewrite Ht, Hsplit, bind_app, bind_cons.
  unfold visit_events at 2. rewrite bool_decide_eq_true_2 by done.
  rewrite Htext. cbn [default from_option]. unfold id.
  rewrite Hlines, diagnostics_app, diagnostics_cons, (malformed_true _ Hbad Hparse).
  by rewrite <-!(assoc_L (++)).
Qed.

(** C8: [collect_ebuild_messages] visits the listed names in the reverse
    of the order in which the listing returned them: the events of the
    call are those of each name of the reversed listing in turn (the
    file opened and its diagnostics, or the rejection), followed by the
    cleanup in the same order. *)
Theorem files_visited_in_reverse_listing_order path w names :
  listings w !! path = Some names →
  all_readable EBUILD_PHASES path names w →
  ∃ le w',
    collect_ebuild_messages EBUILD_PHASES path w = (Return le, w')
    ∧ trace w' = trace w
        ++ (reverse names ≫= visit_events EBUILD_PHASES path w)
        ++ (EvUnlink ∘ Text.path_join path <$> reverse names)
    ∧ opened (reverse names ≫= visit_events EBUILD_PHASES path w)
      = Text.path_join path <$> filter (λ n, n ∈ EBUILD_PHASES) (reverse names).
Proof.
  intros Hlist Hall.
  destruct (collect_run path w names Hlist Hall) as (w' & Hrun & _ & Ht & _).
  eexists _, w'. split; [exact Hrun|]. split; [exact Ht|]. apply visit_opened.
Qed.

End ParserFacts.

(** * Facts about the buffer *)

Section BufferFacts.

Implicit Types (b : buffer) (ph r : gmap string (list entry)) (F : list string).
Implicit Types (colorize : string → string → string).

Lemma filter_in_cons_some ph r p l F :
  ph !! p = Some l →
  filter (λ kv, kv.1 ∈ F) (delete p ph) ∪ <[p := l]> r
  = filter (λ kv, kv.1 ∈ p :: F) ph ∪ r.
Proof.
  intros Hp. apply map_eq; intros q.
  rewrite !lookup_union, !map_lookup_filter. simpl.
  destruct (decide (p = q)) as [<-|Hne].
  - rewrite lookup_delete_eq, lookup_insert_eq, Hp. simpl.
    rewrite option_guard_True by set_solver. simpl. by destruct (r !! p).
  - rewrite lookup_delete_ne, lookup_insert_ne by done.
    destruct (ph !! q) as [x|]; simpl; [|done].
    destruct (decide (q ∈ F)).
    + rewrite !option_guard_True; [done| set_solver | done].
    + rewrite !option_guard_False; [done| |done].
      rewrite elem_of_cons. naive_solver.
Qed.

Lemma filter_in_cons_none ph p F :
  ph !! p = None →
  filter (λ kv, kv.1 ∈ F) ph = filter (λ kv, kv.1 ∈ p :: F) ph.
Proof.
  intros Hp. apply map_filter_strong_ext. intros q x. simpl.
  rewrite elem_of_cons. naive_solver.
Qed.

Lemma filter_notin_cons ph p F :
  filter (λ kv, kv.1 ∉ F) (delete p ph) = filter (λ kv, kv.1 ∉ p :: F) ph.
Proof.
  apply map_filter_strong_ext. intros q x. simpl.
  rewrite lookup_delete_Some, not_elem_of_cons. naive_solver.
Qed.

Lemma pop_phase_fold key F : ∀ r ph b,
  foldl (pop_phase key) (<[key := r]> ∅, <[key := ph]> b) F
  = (<[key := filter (λ kv, kv.1 ∈ F) ph ∪ r]> ∅,
     <[key := filter (λ kv, kv.1 ∉ F) ph]> b).
Proof.
  induction F as [|p F IH]; intros r ph b; simpl.
  - f_equal; f_equal.
    + assert (filter (λ kv : string * list entry, kv.1 ∈ []) ph = ∅) as ->.
      { apply map_empty; intros q. apply map_lookup_filter_None. right.
        intros x _. simpl. apply not_elem_of_nil. }
      by rewrite (left_id_L ∅ (∪)).
    + symmetry. apply map_filter_id. intros q x _. simpl. apply not_elem_of_nil.
  - unfold pop_phase at 2. simpl. rewrite lookup_insert_eq. simpl.
    destruct (ph !! p) as [l|] eqn:Hp.
    + rewrite !alter_insert_eq, IH.
      by rewrite filter_notin_cons, (filter_in_cons_some _ _ _ _ _ Hp).
    + rewrite IH. rewrite <-(filter_in_cons_none _ _ _ Hp).
      rewrite <-filter_notin_cons, (delete_id _ _ Hp). done.
Qed.

(** The filtered drain, in closed form. *)
Lemma collect_messages_filter K F b ph :
  b !! Some K = Some ph →
  collect_messages (Some K) (Some F) b
  = ({[ Some K := filter (λ kv, kv.1 ∈ F) ph ]},
     let rest := filter (λ kv, kv.1 ∉ F) ph in
     if decide (rest = ∅) then delete (Some K) b else <[Some K := rest]> b).
Proof.
  intros Hb. unfold collect_messages. rewrite Hb.
  pose proof (pop_phase_fold (Some K) F ∅ ph b) as Hfold.
  rewrite (insert_id b _ _ Hb), (right_id_L ∅ (∪)), insert_empty in Hfold.
  rewrite insert_empty, Hfold. simpl.
  rewrite lookup_insert_eq, insert_empty.
  case_decide as Hrest; [|done]. by rewrite delete_insert_eq.
Qed.

(** What [_elog_base] leaves in the buffer. *)
Lemma elog_base_buffer colorize level msg phase key color out b :
  (_elog_base colorize level msg phase key color out b).2
  = <[key := <[phase := entries b key phase ++ [(level, msg)]]>
               (default ∅ (b !! key))]> b.
Proof.
  unfold _elog_base, entries. simpl.
  destruct (b !! key) as [ph|] eqn:Hk; simpl.
  - rewrite Hk. simpl. destruct (ph !! phase) as [l|] eqn:Hp; simpl.
    + rewrite <-(insert_id b _ _ Hk) at 1. rewrite alter_insert_eq.
      f_equal. rewrite <-(insert_id ph _ _ Hp) at 1.
      by rewrite alter_insert_eq.
    + rewrite <-(insert_id b _ _ Hk) at 1. rewrite !alter_insert_eq.
      done.
  - rewrite lookup_insert_eq. simpl. rewrite lookup_empty.
    by rewrite !alter_insert_eq.
Qed.

Lemma lookup_filter_in ph F p :
  filter (λ kv, kv.1 ∈ F) ph !! p = if decide (p ∈ F) then ph !! p else None.
Proof.
  rewrite map_lookup_filter. destruct (ph !! p) as [l|]; simpl.
  - case_decide; [by rewrite option_guard_True|by rewrite option_guard_False].
  - by case_decide.
Qed.

Lemma lookup_filter_notin ph F p :
  filter (λ kv, kv.1 ∉ F) ph !! p = if decide (p ∈ F) then None else ph !! p.
Proof.
  rewrite map_lookup_filter. destruct (ph !! p) as [l|]; simpl.
  - case_decide; [rewrite option_guard_False by naive_solver
                 |rewrite option_guard_True by done]; done.
  - by case_decide.
Qed.

Lemma entries_lookup (m : buffer) key phase ph :
  m !! key = Some ph → entries m key phase = default [] (ph !! phase).
Proof. unfold entries. by intros ->. Qed.

Lemma entries_absent (m : buffer) key phase :
  m !! key = None → entries m key phase = [].
Proof. unfold entries. by intros ->. Qed.

(** *** The invariant *)

Lemma buffer_inv_empty : buffer_inv ∅.
Proof. intros key phases. by rewrite lookup_empty. Qed.

Lemma buffer_inv_delete b key : buffer_inv b → buffer_inv (delete key b).
Proof.
  intros Hb k ph. rewrite lookup_delete_Some. intros [_ Hk]. by eapply Hb.
Qed.

Lemma elog_base_inv colorize level msg phase key color out b :
  buffer_inv b →
  buffer_inv (_elog_base colorize level msg phase key color out b).2.
Proof.
  intros Hb. rewrite elog_base_buffer. intros k ph.
  rewrite lookup_insert_Some. intros [[<- <-]|[Hne Hk]]; [|by eapply Hb].
  split.
  - apply insert_non_empty.
  - intros p l. rewrite lookup_insert_Some.
    intros [[<- <-]|[Hp Hl]].
    + by destruct (entries b key phase).
    + destruct (b !! key) as [ph0|] eqn:Hk; simpl in Hl.
      * by apply (proj2 (Hb _ _ Hk) p).
      * by rewrite lookup_empty in Hl.
Qed.

Lemma collect_messages_inv key phasefilter b :
  buffer_inv b → buffer_inv (collect_messages key phasefilter b).2.
Proof.
  intros Hb. destruct key as [K|]; [|apply buffer_inv_empty].
  destruct (b !! Some K) as [ph|] eqn:HK.
  - destruct phasefilter as [F|].
    + rewrite (collect_messages_filter _ _ _ _ HK). simpl.
      case_decide as Hrest; [by apply buffer_inv_delete|].
      intros k ph'. rewrite lookup_insert_Some.
      intros [[<- <-]|[Hne Hk]]; [|by eapply Hb].
      split; [done|]. intros p l. rewrite map_lookup_filter_Some.
      intros [Hl _]. by apply (proj2 (Hb _ _ HK) p).
    + unfold collect_messages. rewrite HK. simpl. by apply buffer_inv_delete.
  - unfold collect_messages. by rewrite HK.
Qed.

Lemma run_call_inv colorize b c : buffer_inv b → buffer_inv (run_call colorize b c).
Proof.
  intros Hb. destruct c as [level msg phase key color out|key phasefilter].
  - exact (elog_base_inv colorize level msg phase key color out b Hb).
  - exact (collect_messages_inv key phasefilter b Hb).
Qed.

Lemma run_calls_inv colorize calls : ∀ b,
  buffer_inv b → buffer_inv (foldl (run_call colorize) b calls).
Proof.
  induction calls as [|c calls IH]; intros b Hb; simpl; [done|].
  by apply IH, run_call_inv.
Qed.

Lemma reachable_inv colorize b : reachable colorize b → buffer_inv b.
Proof. intros [calls ->]. apply run_calls_inv, buffer_inv_empty. Qed.


(** *** Delivery *)

(** One call either hands over a bucket whole or leaves it whole. *)
Lemma collect_split key phasefilter b k p :
  let r := collect_messages key phasefilter b in
  (entries r.1 k p = entries b k p ∧ entries r.2 k p = [])
  ∨ (entries r.1 k p = [] ∧ entries r.2 k p = entries b k p).
Proof.
  simpl. destruct key as [K|]; [|by left].
  destruct (b !! Some K) as [ph|] eqn:HK.
  - destruct phasefilter as [F|].
    + rewrite (collect_messages_filter _ _ _ _ HK). simpl.
      destruct (decide (k = Some K)) as [->|Hne].
      * rewrite (entries_lookup _ _ _ _ (lookup_singleton_eq _ _)).
        rewrite (entries_lookup _ _ _ _ HK), lookup_filter_in.
        pose proof (lookup_filter_notin ph F p) as Hrest.
        destruct (decide (p ∈ F)).
        -- left. split; [done|]. case_decide.
           ++ apply entries_absent, lookup_delete_eq.
           ++ by rewrite (entries_lookup _ _ _ _ (lookup_insert_eq _ _ _)), Hrest.
        -- right. split; [done|]. case_decide as Hempty.
           ++ rewrite (entries_absent _ _ _ (lookup_delete_eq _ _)).
              by rewrite <-Hrest, Hempty, lookup_empty.
           ++ by rewrite (entries_lookup _ _ _ _ (lookup_insert_eq _ _ _)), Hrest.
      * right. split.
        -- apply entries_absent. by rewrite lookup_singleton_ne.
        -- unfold entries. case_decide;
             [by rewrite lookup_delete_ne|by rewrite lookup_insert_ne].
    + unfold collect_messages. rewrite HK. simpl. rewrite insert_empty.
      destruct (decide (k = Some K)) as [->|Hne].
      * left. split.
        -- by rewrite (entries_lookup _ _ _ _ (lookup_singleton_eq _ _)),
             (entries_lookup _ _ _ _ HK).
        -- apply entries_absent, lookup_delete_eq.
      * right. split.
        -- apply entries_absent. by rewrite lookup_singleton_ne.
        -- unfold entries. by rewrite lookup_delete_ne.
  - unfold collect_messages. rewrite HK. by right.
Qed.

Lemma run_drains_conserve calls : ∀ b k p,
  concat ((λ r : buffer, entries r k p) <$> (run_drains calls b).1)
    ++ entries (run_drains calls b).2 k p
  = entries b k p.
Proof.
  induction calls as [|[key pf] calls IH]; intros b k p; [done|].
  cbn [run_drains fst snd]. rewrite fmap_cons. cbn [concat].
  specialize (IH (collect_messages key pf b).2 k p).
  rewrite <-(assoc_L (++)), IH.
  destruct (collect_split key pf b k p) as [[-> ->]|[-> ->]];
    [apply (right_id_L [] (++))|done].
Qed.

Lemma run_drains_nothing calls : ∀ b k p (r : buffer),
  entries b k p = [] → r ∈ (run_drains calls b).1 → entries r k p = [].
Proof.
  induction calls as [|[key pf] calls IH]; intros b k p r Hb; simpl.
  - by intros ?%elem_of_nil.
  - rewrite elem_of_cons. intros [->|Hr].
    + destruct (collect_split key pf b k p) as [[-> _]|[-> _]]; done.
    + apply (IH (collect_messages key pf b).2 k p r); [|done].
      destruct (collect_split key pf b k p) as [[_ ->]|[_ ->]]; done.
Qed.

Lemma run_drains_disjoint calls : ∀ b k p i j (ri rj : buffer),
  i < j →
  (run_drains calls b).1 !! i = Some ri →
  (run_drains calls b).1 !! j = Some rj →
  entries ri k p = [] ∨ entries rj k p = [].
Proof.
  induction calls as [|[key pf] calls IH]; intros b k p i j ri rj Hij; simpl.
  - by rewrite lookup_nil.
  - destruct j as [|j]; [lia|]. destruct i as [|i]; simpl.
    + intros [= <-] Hj.
      destruct (collect_split key pf b k p) as [[_ Hb]|[Hr _]]; [right|by left].
      eapply run_drains_nothing; [exact Hb|]. by eapply list_elem_of_lookup_2.
    + apply IH. lia.
Qed.

(** * The claims on the message buffer *)

(** C2 (as amended): from a buffer that holds nothing under K,
    [record("INFO","m1",phase="build",key=K)] then
    [record("WARN","m2",phase="build",key=K)] then [drain(key=K)]
    returns the mapping from K to [{"build": [(INFO,"m1"), (WARN,"m2")]}]
    and restores the buffer; a second [drain(key=K)] right after returns
    the empty mapping. *)
Theorem drain_roundtrip colorize K b :
  b !! Some K = None →
  let first :=
    collect_messages (Some K) None
      (record colorize "WARN" "m2" "build" (Some K)
         (record colorize "INFO" "m1" "build" (Some K) b)) in
  first = ({[ Some K := {[ "build" := [("INFO", "m1"); ("WARN", "m2")] ]} ]}, b)
  ∧ (collect_messages (Some K) None first.2).1 = ∅.
Proof.
  intros HK.
  assert (record colorize "INFO" "m1" "build" (Some K) b
          = <[Some K := {[ "build" := [("INFO", "m1")] ]}]> b) as ->.
  { unfold record. rewrite elog_base_buffer, (entries_absent _ _ _ HK), HK.
    by rewrite <-insert_empty. }
  assert (record colorize "WARN" "m2" "build" (Some K)
            (<[Some K := {[ "build" := [("INFO", "m1")] ]}]> b)
          = <[Some K := {[ "build" := [("INFO", "m1"); ("WARN", "m2")] ]}]> b)
    as ->.
  { unfold record. rewrite elog_base_buffer.
    rewrite (entries_lookup _ _ _ _ (lookup_insert_eq _ _ _)).
    rewrite lookup_insert_eq, lookup_singleton_eq. simpl.
    by rewrite insert_insert_eq, insert_singleton_eq. }
  assert (collect_messages (Some K) None
            (<[Some K := {[ "build" := [("INFO", "m1"); ("WARN", "m2")] ]}]> b)
          = ({[ Some K := {[ "build" := [("INFO", "m1"); ("WARN", "m2")] ]} ]},
             b)) as ->.
  { unfold collect_messages. rewrite lookup_insert_eq.
    by rewrite delete_insert_eq, (delete_id _ _ HK), insert_empty. }
  split; [done|]. unfold collect_messages. simpl. by rewrite HK.
Qed.

(** C3: with key K present, [collect_messages(key=K, phasefilter=F)]
    returns under K exactly the phases of F that exist under K (a phase
    of F that K lacks is passed over), leaves every other key alone, and
    afterwards K is gone when no phase of it is left and otherwise holds
    its other phases unchanged. *)
Theorem drain_filter_pops_listed_phases b K F phases :
  b !! Some K = Some phases →
  ∃ sel, (collect_messages (Some K) (Some F) b).1 = {[ Some K := sel ]}
    ∧ (∀ p, sel !! p = if decide (p ∈ F) then phases !! p else None)
    ∧ (∀ k, k ≠ Some K →
         (collect_messages (Some K) (Some F) b).2 !! k = b !! k)
    ∧ ((∀ p, is_Some (phases !! p) → p ∈ F) →
         (collect_messages (Some K) (Some F) b).2 !! Some K = None)
    ∧ ((∃ p, is_Some (phases !! p) ∧ p ∉ F) →
         ∃ rest, (collect_messages (Some K) (Some F) b).2 !! Some K = Some rest
           ∧ ∀ p, rest !! p = if decide (p ∈ F) then None else phases !! p).
Proof.
  intros HK. rewrite (collect_messages_filter _ _ _ _ HK). simpl.
  eexists. split; [done|]. split; [apply lookup_filter_in|].
  split; [|split].
  - intros k Hk. case_decide;
      [by rewrite lookup_delete_ne|by rewrite lookup_insert_ne].
  - intros Hall. rewrite decide_True; [apply lookup_delete_eq|].
    apply map_empty; intros p. rewrite lookup_filter_notin.
    case_decide as Hp; [done|]. destruct (phases !! p) eqn:Hl; [|done].
    destruct Hp. apply Hall. by rewrite Hl.
  - intros (p & [l Hl] & Hp). rewrite decide_False.
    + eexists. split; [apply lookup_insert_eq|apply lookup_filter_notin].
    + intros Hempty. pose proof (lookup_filter_notin phases F p) as Hrest.
      rewrite Hempty, lookup_empty, decide_False, Hl in Hrest; done.
Qed.

(** C4: in a sequence of [collect_messages] calls (global, keyed or
    phase-filtered) with no [_elog_base] call in between, what the calls
    return for a key and a phase, taken together with what is left in
    the buffer, is exactly the bucket the buffer held at the start, and
    no two calls both return entries of that bucket: no entry is returned
    by more than one call. *)
Theorem drain_exactly_once calls b key phase :
  concat ((λ r : buffer, entries r key phase) <$> (run_drains calls b).1)
    ++ entries (run_drains calls b).2 key phase
  = entries b key phase
  ∧ ∀ i j (ri rj : buffer), i < j →
      (run_drains calls b).1 !! i = Some ri →
      (run_drains calls b).1 !! j = Some rj →
      entries ri key phase = [] ∨ entries rj key phase = [].
Proof.
  split; [apply run_drains_conserve|apply run_drains_disjoint].
Qed.

(** C9: starting from the empty buffer, after any sequence of
    [_elog_base] and [collect_messages] calls every key of the buffer
    maps to a non-empty phase mapping and every phase under a key maps to
    a non-empty list of entries. *)
Theorem buffer_never_holds_empty_containers colorize calls :
  buffer_inv (foldl (run_call colorize) ∅ calls).
Proof. apply run_calls_inv, buffer_inv_empty. Qed.

(** C10: in every buffer state of the module with key K present, a
    [collect_messages(key=K, phasefilter=F)] whose filter names no phase
    of K returns [{K: {}}] and leaves the buffer as it was; that value is
    not the empty mapping, which is what an absent key yields. *)
Theorem drain_filter_without_match colorize b K F phases :
  reachable colorize b →
  b !! Some K = Some phases →
  (∀ p, p ∈ F → phases !! p = None) →
  collect_messages (Some K) (Some F) b = ({[ Some K := ∅ ]}, b)
  ∧ ({[ Some K := ∅ ]} : buffer) ≠ ∅
  ∧ ∀ K', b !! Some K' = None →
      collect_messages (Some K') (Some F) b = (∅, b).
Proof.
  intros Hreach HK HF. split; [|split].
  - rewrite (collect_messages_filter _ _ _ _ HK). simpl.
    assert (filter (λ kv : string * list entry, kv.1 ∈ F) phases = ∅) as ->.
    { apply map_empty; intros p. rewrite lookup_filter_in.
      case_decide; [by apply HF|done]. }
    assert (filter (λ kv : string * list entry, kv.1 ∉ F) phases = phases) as ->.
    { apply map_eq; intros p. rewrite lookup_filter_notin.
      case_decide; [by rewrite HF|done]. }
    rewrite decide_False, insert_id; [done|done|].
    by apply (reachable_inv _ _ Hreach (Some K)).
  - apply insert_non_empty.
  - intros K' HK'. unfold collect_messages. by rewrite HK'.
Qed.

End BufferFacts.

(** C2, as stated, does not hold: with K = "pkg" the drain returns a
    mapping whose only key is K itself (the phases sit one level below),
    not a mapping with the key "build". *)
Lemma drain_roundtrip_keyed_by_K :
  (collect_messages (Some "pkg") None
     (record plain_colorize "WARN" "m2" "build" (Some "pkg")
        (record plain_colorize "INFO" "m1" "build" (Some "pkg") ∅))).1
  = {[ Some "pkg" := {[ "build" := [("INFO", "m1"); ("WARN", "m2")] ]} ]}
  ∧ (collect_messages (Some "pkg") None
       (record plain_colorize "WARN" "m2" "build" (Some "pkg")
          (record plain_colorize "INFO" "m1" "build" (Some "pkg") ∅))).1
    !! Some "build" = None.
Proof. by vm_compute. Qed.

(** * Sample runs *)

Lemma sample_listing :
  listings sample_world !! "/elog"
  = Some ["compile"; "not_a_phase"; "install"; "gone"].
Proof. by vm_compute. Qed.

Lemma sample_listing_NoDup : NoDup ["compile"; "not_a_phase"; "install"; "gone"].
Proof. apply (bool_decide_unpack _). by vm_compute. Qed.

Lemma sample_readable :
  all_readable sample_phases "/elog"
    ["compile"; "not_a_phase"; "install"; "gone"] sample_world.
Proof.
  intros n _ Hn. unfold sample_phases in Hn.
  apply elem_of_cons in Hn as [->|Hn]; [eexists; by vm_compute|].
  apply list_elem_of_singleton in Hn as ->. eexists. by vm_compute.
Qed.

Lemma sample_reachable : reachable plain_colorize sample_buffer.
Proof. by exists sample_calls. Qed.

Lemma collect_groups_maximal_runs_witness :
  ∃ le w',
    collect_ebuild_messages sample_phases "/elog" sample_world = (Return le, w')
    ∧ le !! "compile"
      = Some [("INFO", ["a"; "b"]); ("WARN", ["c"; "d"]); ("INFO", ["e"])].
Proof.
  destruct (collect_groups_maximal_runs sample_phases "/elog" sample_world
              ["compile"; "not_a_phase"; "install"; "gone"] "compile"
              (unlines ["INFO a"; "INFO b"; "WARN c"; "WARN d"; "INFO e"])
              sample_listing sample_listing_NoDup sample_readable)
    as (le & w' & groups & Hrun & Hle & _ & _ & _ & _ & Hgroups).
  - by left.
  - by left.
  - by vm_compute.
  - exists le, w'. split; [exact Hrun|]. rewrite Hle. f_equal.
    apply Hgroups. by vm_compute.
Defined.

(** C5, as stated, does not hold: the file "not_a_phase" of the sample
    directory is on disk before the call and gone after it. *)
Lemma invalid_phase_file_is_deleted :
  bool_decide ("not_a_phase" ∈ sample_phases) = false
  ∧ files sample_world !! "/elog/not_a_phase"
    = Some (File (Some "ERROR never read") true)
  ∧ files (collect_ebuild_messages sample_phases "/elog" sample_world).2
      !! "/elog/not_a_phase" = None.
Proof. split; [by vm_compute|]. split; [by vm_compute|by vm_compute]. Qed.

Lemma invalid_phase_file_rejected_and_swept_witness :
  ∃ le w',
    collect_ebuild_messages sample_phases "/elog" sample_world = (Return le, w')
    ∧ le !! "not_a_phase" = None
    ∧ files w' !! "/elog/not_a_phase" = None.
Proof.
  destruct (invalid_phase_file_rejected_and_swept sample_phases "/elog"
              sample_world ["compile"; "not_a_phase"; "install"; "gone"]
              "not_a_phase" sample_listing sample_readable)
    as (le & w' & evs & Hrun & _ & Hle & _ & _ & _ & Hfile).
  - right. by left.
  - apply (bool_decide_unpack _). by vm_compute.
  - exists le, w'. split; [exact Hrun|]. split; [exact Hle|].
    change "/elog/not_a_phase" with (Text.path_join "/elog" "not_a_phase").
    rewrite Hfile. by vm_compute.
Defined.

(** C6, as stated, does not hold: in the directory "/r" the listed
    phase file "install" cannot be opened, so the call raises [OSError]
    out of the parse loop; the cleanup is never reached, no unlink is
    tried and the readable file "compile" stays on disk. *)
Lemma unreadable_phase_file_stops_cleanup :
  (collect_ebuild_messages sample_phases "/r" edge_world).1 = Raise OSError
  ∧ unlink_attempts
      (trace (collect_ebuild_messages sample_phases "/r" edge_world).2) = []
  ∧ files (collect_ebuild_messages sample_phases "/r" edge_world).2
    = files edge_world.
Proof. split; [by vm_compute|]. split; by vm_compute. Qed.

Lemma cleanup_sweeps_every_listed_file_witness :
  ∃ le w' evs,
    collect_ebuild_messages sample_phases "/elog" sample_world = (Return le, w')
    ∧ trace w' = trace sample_world ++ evs
    ∧ unlink_attempts evs
      = ["/elog/gone"; "/elog/install"; "/elog/not_a_phase"; "/elog/compile"].
Proof.
  destruct (cleanup_sweeps_every_listed_file sample_phases "/elog"
              sample_world ["compile"; "not_a_phase"; "install"; "gone"]
              sample_listing sample_readable)
    as (le & w' & evs & Hrun & Ht & Hunlink & _).
  exists le, w', evs. split; [exact Hrun|]. split; [exact Ht|].
  rewrite Hunlink. by vm_compute.
Defined.

Lemma malformed_line_skipped_witness :
  ∃ le w',
    collect_ebuild_messages sample_phases "/elog" sample_world = (Return le, w')
    ∧ le !! "install" = Some [("INFO", ["a"; "b"]); ("QA", ["c"])]
    ∧ EvWritemsg (malformed_msg "/elog/install" "BOGUS x") ∈ trace w'.
Proof.
  destruct (malformed_line_skipped sample_phases "/elog" sample_world
              ["compile"; "not_a_phase"; "install"; "gone"] "install"
              (unlines ["INFO a"; "BOGUS x"; "INFO b"; "WARNING"; "QA c"])
              ["INFO a"] "BOGUS x" ["INFO b"; "WARNING"; "QA c"; ""]
              sample_listing sample_listing_NoDup sample_readable)
    as (le & w' & groups & before & after & Hrun & Hle & Hgroups & _ & Ht).
  - right. right. by left.
  - right. by left.
  - by vm_compute.
  - by vm_compute.
  - done.
  - left. exists "BOGUS". split; [by vm_compute|].
    apply (bool_decide_unpack _). by vm_compute.
  - exists le, w'. split; [exact Hrun|]. split.
    + rewrite Hle, Hgroups. by vm_compute.
    + rewrite Ht. apply elem_of_app. right. apply elem_of_app. right.
      apply elem_of_app. left. right. apply elem_of_app. right. left.
Defined.

Lemma files_visited_in_reverse_listing_order_witness :
  ∃ le w',
    collect_ebuild_messages sample_phases "/elog" sample_world = (Return le, w')
    ∧ opened (trace w') = ["/elog/install"; "/elog/compile"].
Proof.
  destruct (files_visited_in_reverse_listing_order sample_phases "/elog"
              sample_world ["compile"; "not_a_phase"; "install"; "gone"]
              sample_listing sample_readable)
    as (le & w' & Hrun & Ht & _).
  exists le, w'. split; [exact Hrun|]. rewrite Ht. by vm_compute.
Defined.

Lemma drain_roundtrip_witness :
  collect_messages (Some "pkg") None
    (record plain_colorize "WARN" "m2" "build" (Some "pkg")
       (record plain_colorize "INFO" "m1" "build" (Some "pkg")
          {[ None := {[ "other" := [("LOG", "m3")] ]} ]}))
  = ({[ Some "pkg" := {[ "build" := [("INFO", "m1"); ("WARN", "m2")] ]} ]},
     {[ None := {[ "other" := [("LOG", "m3")] ]} ]})
  ∧ (collect_messages (Some "pkg") None
       {[ None := {[ "other" := [("LOG", "m3")] ]} ]}).1 = ∅.
Proof.
  destruct (drain_roundtrip plain_colorize "pkg"
              {[ None := {[ "other" := [("LOG", "m3")] ]} ]}) as [Hfirst Hsecond].
  - by vm_compute.
  - split; [exact Hfirst|]. rewrite Hfirst in Hsecond. exact Hsecond.
Defined.

Lemma drain_filter_pops_listed_phases_witness :
  ∃ sel,
    (collect_messages (Some "pkg") (Some ["build"; "test"]) sample_buffer).1
    = {[ Some "pkg" := sel ]}
    ∧ sel !! "build" = Some [("INFO", "m1")]
    ∧ sel !! "test" = None
    ∧ sel !! "install" = None
    ∧ (collect_messages (Some "pkg") (Some ["build"; "test"]) sample_buffer).2
        !! None = sample_buffer !! None.
Proof.
  destruct (drain_filter_pops_listed_phases sample_buffer "pkg" ["build"; "test"]
              {[ "build" := [("INFO", "m1")]; "install" := [("WARN", "m2")] ]})
    as (sel & Hr & Hsel & Hother & _).
  - by vm_compute.
  - exists sel. split; [exact Hr|]. rewrite !Hsel.
    split; [by vm_compute|]. split; [by vm_compute|]. split; [by vm_compute|].
    by apply Hother.
Defined.

Lemma drain_exactly_once_witness :
  concat ((λ r : buffer, entries r (Some "pkg") "build")
            <$> (run_drains sample_drains sample_buffer).1)
    ++ entries (run_drains sample_drains sample_buffer).2 (Some "pkg") "build"
  = [("INFO", "m1")].
Proof.
  rewrite (proj1 (drain_exactly_once sample_drains sample_buffer (Some "pkg") "build")).
  by vm_compute.
Defined.

Lemma drain_filter_without_match_witness :
  collect_messages (Some "pkg") (Some ["test"]) sample_buffer
  = ({[ Some "pkg" := ∅ ]}, sample_buffer).
Proof.
  apply (drain_filter_without_match plain_colorize sample_buffer "pkg" ["test"]
           {[ "build" := [("INFO", "m1")]; "install" := [("WARN", "m2")] ]}).
  - exact sample_reachable.
  - by vm_compute.
  - intros p ->%list_elem_of_singleton. by vm_compute.
Defined.

(** * Further facts about the text helpers *)

Lemma has_char_app c a b :
  Text.has_char c (a +:+ b) = Text.has_char c a || Text.has_char c b.
Proof.
  induction a as [|d a IH]; simpl; [done|]. by rewrite IH, orb_assoc.
Qed.

Lemma split1_app sep a b :
  Text.has_char sep a = false →
  Text.split1 sep (a +:+ String sep b) = [a; b].
Proof.
  induction a as [|c a IH]; simpl; intros Ha.
  - by rewrite Ascii.eqb_refl.
  - apply orb_false_iff in Ha as [Hc Ha]. by rewrite Hc, (IH Ha).
Qed.

Lemma split_app sep a b :
  Text.has_char sep a = false →
  Text.split sep (a +:+ String sep b) = a :: Text.split sep b.
Proof.
  induction a as [|c a IH]; simpl; intros Ha.
  - by rewrite Ascii.eqb_refl.
  - apply orb_false_iff in Ha as [Hc Ha]. by rewrite Hc, (IH Ha).
Qed.

Lemma level_has_no_blank_or_newline t :
  t ∈ _log_levels →
  Text.has_char Text.sp_char t = false ∧ Text.has_char Text.nl_char t = false.
Proof.
  unfold _log_levels. rewrite !elem_of_union, !elem_of_singleton.
  by intros [[[[->| ->]| ->]| ->]| ->].
Qed.

Lemma parse_line_format t m :
  t ∈ _log_levels → parse_line (format_entry (t, m)) = Some (t, m).
Proof.
  intros Ht. unfold parse_line, format_entry. simpl.
  change " "%char with Text.sp_char.
  rewrite split1_app by by apply level_has_no_blank_or_newline.
  by rewrite bool_decide_eq_true_2.
Qed.

(** X4: [parse_line] accepts exactly the lines made of a recognized
    severity, one blank and the rest of the line; the rest, blanks and
    all, is the message. *)
Theorem parse_line_accepts_exactly l t m :
  parse_line l = Some (t, m)
  ↔ t ∈ _log_levels ∧ l = t +:+ String Text.sp_char m.
Proof.
  split.
  - intros Hl. by destruct (parse_line_Some _ _ _ Hl).
  - intros [Ht ->]. by apply (parse_line_format t m).
Qed.



(** * Further facts about the parser *)

Lemma split_unlines ls :
  Forall (λ l, Text.has_char Text.nl_char l = false) ls →
  Text.split Text.nl_char (unlines ls) = ls ++ [""].
Proof.
  induction 1 as [|l ls Hl _ IH]; [done|]. cbn [unlines foldr].
  fold (unlines ls).
  change (Text.nl +:+ unlines ls) with (String Text.nl_char (unlines ls)).
  by rewrite split_app, IH.
Qed.

Lemma written_lines_parse fn es :
  Forall (λ e, e.1 ∈ _log_levels) es →
  valid_entries ((format_entry <$> es) ++ [""]) = es
  ∧ diagnostics fn ((format_entry <$> es) ++ [""]) = [].
Proof.
  induction 1 as [|[t m] es Ht _ [IHv IHd]]; [done|].
  rewrite fmap_cons. cbn [app].
  rewrite valid_entries_cons, diagnostics_cons.
  rewrite (parse_line_format _ _ Ht), (malformed_valid _ _ (parse_line_format _ _ Ht)).
  by rewrite IHv, IHd.
Qed.

Lemma group_runs_severity es g :
  g ∈ group_runs es → ∃ m, (g.1, m) ∈ es.
Proof.
  intros Hg. destruct g as [t ms].
  destruct ms as [|m ms]; [by destruct (group_runs_nonempty _ _ Hg)|].
  exists m. rewrite <-(flatten_group_runs es). unfold flatten.
  apply list_elem_of_bind. exists (t, m :: ms). split; [by left|done].
Qed.

Lemma valid_entries_levels lines e :
  e ∈ valid_entries lines → e.1 ∈ _log_levels.
Proof.
  unfold valid_entries. rewrite list_elem_of_omap.
  intros (l & _ & Hl). destruct e as [t m]. by destruct (parse_line_Some _ _ _ Hl).
Qed.

Lemma unlinks_open_nothing (fns : list string) : opened (EvUnlink <$> fns) = [].
Proof. induction fns as [|fn fns IH]; [done|]. by rewrite fmap_cons. Qed.

(** *** Line breaks *)


Lemma universal_newlines_id s :
  Text.has_char cr_char s = false → universal_newlines s = s.
Proof.
  induction s as [|c s IH]; [done|]. simpl.
  intros [Hc Hs]%orb_false_iff. by rewrite Hc, (IH Hs).
Qed.




Lemma level_has_no_cr t :
  t ∈ _log_levels → Text.has_char cr_char t = false.
Proof.
  unfold _log_levels. rewrite !elem_of_union, !elem_of_singleton.
  by intros [[[[->| ->]| ->]| ->]| ->].
Qed.

Lemma unlines_has_char c ls :
  Ascii.eqb Text.nl_char c = false →
  Forall (λ l, Text.has_char c l = false) ls →
  Text.has_char c (unlines ls) = false.
Proof.
  intros Hc. induction 1 as [|l ls Hl _ IH]; [done|].
  cbn [unlines foldr]. fold (unlines ls).
  rewrite !has_char_app, Hl, IH. unfold Text.nl. cbn [Text.has_char].
  by rewrite Hc.
Qed.

Section ParserMore.

Variable EBUILD_PHASES : list string.

Lemma absorb_fold_is_Some path w names n : ∀ le,
  is_Some (foldl (absorb EBUILD_PHASES path w) le names !! n)
  ↔ is_Some (le !! n) ∨ (n ∈ names ∧ n ∈ EBUILD_PHASES).
Proof.
  induction names as [|n0 names IH]; intros le; simpl.
  - rewrite elem_of_nil. naive_solver.
  - rewrite IH, elem_of_cons. unfold absorb. case_bool_decide as Hv.
    + rewrite lookup_insert_is_Some. destruct (decide (n0 = n)); naive_solver.
    + naive_solver.
Qed.

Lemma absorb_fold_well_formed path w names : ∀ le,
  groups_well_formed le →
  groups_well_formed (foldl (absorb EBUILD_PHASES path w) le names).
Proof.
  induction names as [|n0 names IH]; intros le Hle; [done|]. simpl.
  apply IH. unfold absorb. case_bool_decide; [|done].
  intros phase groups g. rewrite lookup_insert_Some.
  intros [[<- <-]|[_ Hphase]] Hg; [|by eapply Hle].
  apply elem_of_app in Hg as [Hg|Hg].
  - destruct (le !! n0) as [gs|] eqn:Hn0; simpl in Hg; [by eapply Hle|].
    by apply elem_of_nil in Hg.
  - split; [|by eapply group_runs_nonempty].
    destruct (group_runs_severity _ _ Hg) as [m Hm].
    by apply valid_entries_levels in Hm.
Qed.

(** X3: the keys of the returned mapping are exactly the listed names
    that are phase names: a rejected name gets no entry, and a phase file
    gets one whatever it holds. *)
Theorem returned_keys_are_listed_phases path w names :
  listings w !! path = Some names →
  all_readable EBUILD_PHASES path names w →
  ∃ le w',
    collect_ebuild_messages EBUILD_PHASES path w = (Return le, w')
    ∧ ∀ n, is_Some (le !! n) ↔ n ∈ names ∧ n ∈ EBUILD_PHASES.
Proof.
  intros Hlist Hall.
  destruct (collect_run EBUILD_PHASES path w names Hlist Hall) as (w' & Hrun & _).
  eexists _, w'. split; [exact Hrun|]. intros n.
  rewrite absorb_fold_is_Some, lookup_empty, elem_of_reverse.
  split; [intros [[? [=]]|?]; done|by right].
Qed.

(** X5: a phase file without a single well-formed line still gets its
    entry: the phase maps to the empty list of groups, it is not left
    out of the mapping. *)
Theorem phase_file_without_entries_maps_to_nil path w names phase text :
  listings w !! path = Some names →
  NoDup names →
  all_readable EBUILD_PHASES path names w →
  phase ∈ names →
  phase ∈ EBUILD_PHASES →
  text_of w (Text.path_join path phase) = Some text →
  valid_entries (Text.split Text.nl_char text) = [] →
  ∃ le w',
    collect_ebuild_messages EBUILD_PHASES path w = (Return le, w')
    ∧ le !! phase = Some [].
Proof.
  intros Hlist Hnd Hall Hin Hphase Htext Hnone.
  destruct (collect_run EBUILD_PHASES path w names Hlist Hall) as (w' & Hrun & _).
  eexists _, w'. split; [exact Hrun|].
  rewrite absorb_fold_Some;
    [|by rewrite reverse_Permutation|by apply elem_of_reverse|done].
  rewrite lookup_empty, Htext. cbn [default from_option]. unfold id.
  by rewrite Hnone.
Qed.



(** X7: a phase file written as lines of a recognized severity, one
    blank and a message that holds neither newline nor carriage return
    is read back whole ([io.open]'s newline translation leaves such a
    file as it is): the phase maps to the maximal runs of exactly the
    entries written, in order, and the file earns no diagnostic. *)
Theorem written_entries_read_back path w names phase es :
  listings w !! path = Some names →
  NoDup names →
  all_readable EBUILD_PHASES path names w →
  phase ∈ names →
  phase ∈ EBUILD_PHASES →
  text_of w (Text.path_join path phase)
    = Some (universal_newlines (unlines (format_entry <$> es))) →
  Forall (λ e, e.1 ∈ _log_levels
               ∧ Text.has_char Text.nl_char e.2 = false
               ∧ Text.has_char cr_char e.2 = false) es →
  ∃ le w',
    collect_ebuild_messages EBUILD_PHASES path w = (Return le, w')
    ∧ le !! phase = Some (group_runs es)
    ∧ flatten (group_runs es) = es
    ∧ visit_events EBUILD_PHASES path w phase
      = [EvOpen (Text.path_join path phase)].
Proof.
  intros Hlist Hnd Hall Hin Hphase Htext Hes.
  rewrite universal_newlines_id in Htext.
  2:{ apply unlines_has_char; [done|]. apply Forall_fmap.
      eapply Forall_impl; [exact Hes|]. intros [t m] (Ht & _ & Hm).
      unfold format_entry. simpl in *. rewrite has_char_app. cbn [Text.has_char].
      by rewrite Hm, (level_has_no_cr _ Ht). }
  assert (Text.split Text.nl_char (unlines (format_entry <$> es))
          = (format_entry <$> es) ++ [""]) as Hsplit.
  { apply split_unlines, Forall_fmap. eapply Forall_impl; [exact Hes|].
    intros [t m] (Ht & Hm & _). unfold format_entry. simpl in *.
    rewrite has_char_app. cbn [Text.has_char].
    by rewrite Hm, (proj2 (level_has_no_blank_or_newline _ Ht)). }
  assert (Forall (λ e : string * string, e.1 ∈ _log_levels) es) as Hlevels.
  { eapply Forall_impl; [exact Hes|]. by intros e [? _]. }
  destruct (collect_run EBUILD_PHASES path w names Hlist Hall) as (w' & Hrun & _).
  eexists _, w'. split; [exact Hrun|]. split; [|split].
  - rewrite absorb_fold_Some;
      [|by rewrite reverse_Permutation|by apply elem_of_reverse|done].
    rewrite lookup_empty, Htext. cbn [default from_option]. unfold id.
    by rewrite Hsplit, (proj1 (written_lines_parse "" es Hlevels)).
  - apply flatten_group_runs.
  - unfold visit_events. rewrite bool_decide_eq_true_2 by done.
    rewrite Htext. cbn [default from_option]. unfold id.
    by rewrite Hsplit, (proj2 (written_lines_parse _ es Hlevels)).
Qed.

(** X8: every group the call returns, under whatever phase, carries a
    recognized severity and at least one message. *)
Theorem returned_groups_well_formed path w names :
  listings w !! path = Some names →
  all_readable EBUILD_PHASES path names w →
  ∃ le w',
    collect_ebuild_messages EBUILD_PHASES path w = (Return le, w')
    ∧ groups_well_formed le.
Proof.
  intros Hlist Hall.
  destruct (collect_run EBUILD_PHASES path w names Hlist Hall) as (w' & Hrun & _).
  eexists _, w'. split; [exact Hrun|]. apply absorb_fold_well_formed.
  intros phase groups g. by rewrite lookup_empty.
Qed.

(** X9: the call keeps to the listing: a file that is not one of the
    listed names under the path is neither opened nor unlinked and is on
    disk afterwards exactly as before. *)
Theorem unlisted_files_untouched path w names :
  listings w !! path = Some names →
  all_readable EBUILD_PHASES path names w →
  ∃ le w' evs,
    collect_ebuild_messages EBUILD_PHASES path w = (Return le, w')
    ∧ trace w' = trace w ++ evs
    ∧ ∀ fn, fn ∉ (Text.path_join path <$> names) →
        files w' !! fn = files w !! fn
        ∧ (fn ∉ opened evs)
        ∧ (fn ∉ unlink_attempts evs).
Proof.
  intros Hlist Hall.
  destruct (collect_run EBUILD_PHASES path w names Hlist Hall)
    as (w' & Hrun & _ & Ht & Hf).
  eexists _, w', _. split; [exact Hrun|]. split; [exact Ht|].
  intros fn Hfn. split; [|split].
  - rewrite Hf. destruct (files w !! fn); simpl; [|done].
    by rewrite bool_decide_eq_false_2.
  - unfold opened. rewrite omap_app.
    fold (opened (reverse names ≫= visit_events EBUILD_PHASES path w)).
    rewrite visit_opened, list_fmap_compose.
    fold (opened (EvUnlink <$> (Text.path_join path <$> reverse names))).
    rewrite unlinks_open_nothing, (right_id_L [] (++)).
    intros (n & -> & Hn)%list_elem_of_fmap. apply Hfn.
    apply list_elem_of_fmap_2. apply list_elem_of_filter in Hn as [_ Hn].
    by apply elem_of_reverse.
  - unfold unlink_attempts. rewrite omap_app.
    fold (unlink_attempts (reverse names ≫= visit_events EBUILD_PHASES path w)).
    rewrite visit_no_unlink, list_fmap_compose.
    fold (unlink_attempts (EvUnlink <$> (Text.path_join path <$> reverse names))).
    rewrite unlinks_attempted. simpl.
    by rewrite fmap_reverse, elem_of_reverse.
Qed.

End ParserMore.

(** * Further facts about the buffer *)

Lemma entries_after_record (colorize : string → string → string)
    (level msg phase : string) (key color : option string)
    (out : option stream) (b : buffer) (key' : option string) (phase' : string) :
  entries (_elog_base colorize level msg phase key color out b).2 key' phase'
  = entries b key' phase'
    ++ (if decide (key = key' ∧ phase = phase') then [(level, msg)] else []).
Proof.
  rewrite elog_base_buffer. unfold entries at 1.
  destruct (decide (key = key')) as [<-|Hk].
  - rewrite lookup_insert_eq. simpl.
    destruct (decide (phase = phase')) as [<-|Hp].
    + rewrite lookup_insert_eq, decide_True by done. done.
    + rewrite lookup_insert_ne, decide_False by naive_solver.
      rewrite (right_id_L [] (++)). unfold entries.
      by destruct (b !! key).
  - rewrite lookup_insert_ne, decide_False by naive_solver.
    by rewrite (right_id_L [] (++)).
Qed.

(** X10: [_elog_base] keeps call order: after a run of [_elog_base]
    calls the bucket of a key and a phase holds what it held before,
    followed by the entries of the calls made for that key and phase, in
    the order of the calls; calls for other buckets leave it alone. *)
Theorem records_append_in_call_order colorize calls : ∀ b key phase,
  Forall (λ c, is_record c = true) calls →
  entries (foldl (run_call colorize) b calls) key phase
  = entries b key phase ++ omap (appended_to key phase) calls.
Proof.
  induction calls as [|c calls IH]; intros b key phase Hrec.
  - cbn. by rewrite (right_id_L [] (++)).
  - apply Forall_cons in Hrec as [Hc Hrec]. simpl. rewrite (IH _ _ _ Hrec).
    destruct c as [level msg phase' key' color out|]; [|done].
    cbn [run_call appended_to]. rewrite entries_after_record.
    rewrite <-(assoc_L (++)). f_equal. by case_decide.
Qed.

Lemma keyed_drain_other (K : string) (phasefilter : option (list string))
    (b : buffer) (k : option string) :
  k ≠ Some K →
  (collect_messages (Some K) phasefilter b).1 !! k = None
  ∧ (collect_messages (Some K) phasefilter b).2 !! k = b !! k.
Proof.
  intros Hk. destruct (b !! Some K) as [ph|] eqn:HK.
  - destruct phasefilter as [F|].
    + rewrite (collect_messages_filter _ _ _ _ HK). simpl.
      split; [by rewrite lookup_singleton_ne|].
      case_decide; [by rewrite lookup_delete_ne|by rewrite lookup_insert_ne].
    + unfold collect_messages. rewrite HK. simpl.
      by rewrite insert_empty, lookup_singleton_ne, lookup_delete_ne.
  - unfold collect_messages. by rewrite HK.
Qed.

(** X11: a keyed [collect_messages] concerns its key only: every other
    key, the key [None] of messages recorded without a key included, is
    absent from the returned mapping and keeps its phases in the buffer. *)
Theorem keyed_drain_leaves_other_keys (K : string)
    (phasefilter : option (list string)) (b : buffer) (k : option string) :
  k ≠ Some K →
  (collect_messages (Some K) phasefilter b).1 !! k = None
  ∧ (collect_messages (Some K) phasefilter b).2 !! k = b !! k.
Proof. apply keyed_drain_other. Qed.

(** X12: recording under one key and draining another commute: the
    drain returns the same mapping, and the buffer ends up the same,
    whichever comes first. *)
Theorem record_commutes_with_drain_of_other_key
    (colorize : string → string → string) (level msg phase : string)
    (key color : option string) (out : option stream) (K : string)
    (phasefilter : option (list string)) (b : buffer) :
  key ≠ Some K →
  collect_messages (Some K) phasefilter
    (_elog_base colorize level msg phase key color out b).2
  = ((collect_messages (Some K) phasefilter b).1,
     (_elog_base colorize level msg phase key color out
        (collect_messages (Some K) phasefilter b).2).2).
Proof.
  intros Hk. rewrite !elog_base_buffer.
  pose proof (proj2 (keyed_drain_other K phasefilter b key Hk)) as Hkeep.
  unfold entries at 2. rewrite Hkeep. fold (entries b key phase).
  set (ph' := <[phase := entries b key phase ++ [(level, msg)]]>
                (default ∅ (b !! key))).
  destruct (b !! Some K) as [ph|] eqn:HK.
  - assert (<[key := ph']> b !! Some K = Some ph) as HK'
      by by rewrite lookup_insert_ne.
    destruct phasefilter as [F|].
    + rewrite (collect_messages_filter _ _ _ _ HK),
        (collect_messages_filter _ _ _ _ HK'). simpl. f_equal.
      case_decide; [by rewrite delete_insert_ne|by rewrite insert_insert_ne].
    + unfold collect_messages. rewrite HK, HK'. simpl.
      by rewrite delete_insert_ne.
  - unfold collect_messages. rewrite HK.
    by rewrite lookup_insert_ne, HK.
Qed.

(** X13: a filter that names every phase present under K does what no
    filter does: the same mapping is returned and K is removed. *)
Theorem covering_filter_is_full_drain (K : string) (F : list string)
    (b : buffer) (phases : gmap string (list entry)) :
  b !! Some K = Some phases →
  (∀ p, is_Some (phases !! p) → p ∈ F) →
  collect_messages (Some K) (Some F) b = collect_messages (Some K) None b.
Proof.
  intros HK Hall. rewrite (collect_messages_filter _ _ _ _ HK).
  unfold collect_messages. rewrite HK. simpl. rewrite insert_empty.
  assert (filter (λ kv : string * list entry, kv.1 ∈ F) phases = phases) as ->.
  { apply map_eq; intros p. rewrite lookup_filter_in.
    case_decide as Hp; [done|]. destruct (phases !! p) eqn:Hl; [|done].
    destruct Hp. apply Hall. by rewrite Hl. }
  rewrite decide_True; [done|].
  apply map_empty; intros p. rewrite lookup_filter_notin.
  case_decide as Hp; [done|]. destruct (phases !! p) eqn:Hl; [|done].
  destruct Hp. apply Hall. by rewrite Hl.
Qed.

(** X14: only the set of phases a filter names matters: two filters with
    the same members, in any order and with any repetitions, give the
    same returned mapping and the same buffer. *)
Theorem filter_order_and_repeats_irrelevant (K : string) (F1 F2 : list string)
    (b : buffer) :
  (∀ p, p ∈ F1 ↔ p ∈ F2) →
  collect_messages (Some K) (Some F1) b = collect_messages (Some K) (Some F2) b.
Proof.
  intros Hsame. destruct (b !! Some K) as [ph|] eqn:HK.
  - rewrite !(collect_messages_filter _ _ _ _ HK). simpl.
    assert (filter (λ kv : string * list entry, kv.1 ∈ F1) ph
            = filter (λ kv : string * list entry, kv.1 ∈ F2) ph) as ->.
    { apply map_eq; intros p. rewrite !lookup_filter_in.
      by rewrite (decide_ext _ _ _ _ (Hsame p)). }
    assert (filter (λ kv : string * list entry, kv.1 ∉ F1) ph
            = filter (λ kv : string * list entry, kv.1 ∉ F2) ph) as ->.
    { apply map_eq; intros p. rewrite !lookup_filter_notin.
      by rewrite (decide_ext _ _ _ _ (Hsame p)). }
    done.
  - unfold collect_messages. by rewrite HK.
Qed.

(** X15: draining K by two filters in turn leaves the buffer as one
    drain by both together does, and delivers the same entries: what the
    joint call returns for a phase is what the first call returns
    followed by what the second returns. *)
Theorem filtered_drains_compose (K : string) (F1 F2 : list string)
    (b : buffer) :
  let first := collect_messages (Some K) (Some F1) b in
  let second := collect_messages (Some K) (Some F2) first.2 in
  let joint := collect_messages (Some K) (Some (F1 ++ F2)) b in
  joint.2 = second.2
  ∧ ∀ key phase, entries joint.1 key phase
      = entries first.1 key phase ++ entries second.1 key phase.
Proof.
  cbn zeta.
  assert ((collect_messages (Some K) (Some (F1 ++ F2)) b).2
          = (collect_messages (Some K) (Some F2)
               (collect_messages (Some K) (Some F1) b).2).2) as Hbuf.
  { destruct (b !! Some K) as [ph|] eqn:HK.
    - rewrite !(collect_messages_filter _ _ _ _ HK). cbn [fst snd].
      assert (filter (λ kv : string * list entry, kv.1 ∉ F1 ++ F2) ph
              = filter (λ kv : string * list entry, kv.1 ∉ F2)
                  (filter (λ kv : string * list entry, kv.1 ∉ F1) ph)) as ->.
      { apply map_eq; intros p. rewrite !lookup_filter_notin.
        destruct (decide (p ∈ F1)), (decide (p ∈ F2));
          rewrite ?decide_True, ?decide_False by set_solver; done. }
      set (rest1 := filter (λ kv : string * list entry, kv.1 ∉ F1) ph).
      destruct (decide (rest1 = ∅)) as [Hrest|Hrest].
      + rewrite ?Hrest, ?map_filter_empty. rewrite ?decide_True by done.
        unfold collect_messages. by rewrite lookup_delete_eq.
      + rewrite (collect_messages_filter _ _ _ _ (lookup_insert_eq _ _ _)).
        cbn [fst snd].
        case_decide; [by rewrite delete_insert_eq|by rewrite insert_insert_eq].
    - unfold collect_messages at 3. rewrite HK. simpl.
      unfold collect_messages. by rewrite HK. }
  split; [exact Hbuf|]. intros key phase.
  pose proof (run_drains_conserve [(Some K, Some (F1 ++ F2))] b key phase) as Hjoint.
  pose proof (run_drains_conserve [(Some K, Some F1); (Some K, Some F2)] b key phase)
    as Hsplit.
  cbn [run_drains fst snd fmap list_fmap concat] in Hjoint, Hsplit.
  rewrite (right_id_L [] (++)) in Hjoint, Hsplit.
  rewrite <-Hsplit, Hbuf in Hjoint.
  by apply app_inv_tail in Hjoint.
Qed.

(** X16: once a key has been drained without a filter it is gone:
    draining it again, with or without a filter, returns the empty
    mapping and leaves the buffer as it is. After a global drain the
    same holds of every call. *)
Theorem drained_key_stays_drained (K : string) (key : option string)
    (phasefilter phasefilter' : option (list string)) (b : buffer) :
  collect_messages (Some K) phasefilter (collect_messages (Some K) None b).2
  = (∅, (collect_messages (Some K) None b).2)
  ∧ collect_messages key phasefilter (collect_messages None phasefilter' b).2
    = (∅, ∅).
Proof.
  split.
  - assert ((collect_messages (Some K) None b).2 !! Some K = None) as Hgone.
    { unfold collect_messages. destruct (b !! Some K) eqn:HK; simpl; [|done].
      apply lookup_delete_eq. }
    unfold collect_messages at 1. by rewrite Hgone.
  - unfold collect_messages, _reset_buffer. simpl. destruct key; [|done].
    by rewrite lookup_empty.
Qed.

(** * Further sample runs *)

Lemma collect_nothing_listed_witness :
  collect_ebuild_messages sample_phases "/nowhere" sample_world
  = (Return ∅, sample_world).
Proof.
  apply (collect_nothing_listed sample_phases "/nowhere" sample_world).
  left. by vm_compute.
Defined.

Lemma collect_raises_on_unreadable_witness :
  ∃ w', collect_ebuild_messages sample_phases "/r" edge_world = (Raise OSError, w')
    ∧ files w' = files edge_world
    ∧ unlink_attempts (trace w') = unlink_attempts (trace edge_world).
Proof.
  apply (collect_raises_on_unreadable sample_phases "/r" edge_world
           ["compile"; "install"] "install").
  - by vm_compute.
  - right. by left.
  - right. by left.
  - by vm_compute.
Defined.

Lemma returned_keys_are_listed_phases_witness :
  ∃ le w',
    collect_ebuild_messages sample_phases "/elog" sample_world = (Return le, w')
    ∧ ∀ n, is_Some (le !! n)
        ↔ n ∈ ["compile"; "not_a_phase"; "install"; "gone"] ∧ n ∈ sample_phases.
Proof.
  exact (returned_keys_are_listed_phases sample_phases "/elog" sample_world
           ["compile"; "not_a_phase"; "install"; "gone"]
           sample_listing sample_readable).
Defined.

Lemma edge_readable : all_readable sample_phases "/q" ["install"] edge_world.
Proof.
  intros n Hn _. apply list_elem_of_singleton in Hn as ->.
  eexists. by vm_compute.
Qed.

Lemma phase_file_without_entries_maps_to_nil_witness :
  ∃ le w',
    collect_ebuild_messages sample_phases "/q" edge_world = (Return le, w')
    ∧ le !! "install" = Some [].
Proof.
  apply (phase_file_without_entries_maps_to_nil sample_phases "/q" edge_world
           ["install"] "install" (unlines ["no severity here"; ""])).
  - by vm_compute.
  - apply NoDup_singleton.
  - exact edge_readable.
  - by left.
  - right. by left.
  - by vm_compute.
  - by vm_compute.
Defined.

Lemma written_entries_read_back_witness :
  ∃ le w',
    collect_ebuild_messages sample_phases "/elog" sample_world = (Return le, w')
    ∧ le !! "compile"
      = Some [("INFO", ["a"; "b"]); ("WARN", ["c"; "d"]); ("INFO", ["e"])].
Proof.
  destruct (written_entries_read_back sample_phases "/elog" sample_world
              ["compile"; "not_a_phase"; "install"; "gone"] "compile"
              [("INFO", "a"); ("INFO", "b"); ("WARN", "c"); ("WARN", "d");
               ("INFO", "e")]
              sample_listing sample_listing_NoDup sample_readable)
    as (le & w' & Hrun & Hle & _).
  - by left.
  - by left.
  - by vm_compute.
  - repeat (constructor;
      [split; [apply (bool_decide_unpack _); by vm_compute|];
       split; by vm_compute|]).
    constructor.
  - exists le, w'. split; [exact Hrun|]. rewrite Hle. by vm_compute.
Defined.



Lemma returned_groups_well_formed_witness :
  ∃ le w',
    collect_ebuild_messages sample_phases "/elog" sample_world = (Return le, w')
    ∧ groups_well_formed le.
Proof.
  exact (returned_groups_well_formed sample_phases "/elog" sample_world
           ["compile"; "not_a_phase"; "install"; "gone"]
           sample_listing sample_readable).
Defined.

Lemma unlisted_files_untouched_witness :
  ∃ le w' evs,
    collect_ebuild_messages sample_phases "/elog" sample_world = (Return le, w')
    ∧ trace w' = trace sample_world ++ evs
    ∧ ∀ fn, fn ∉ (Text.path_join "/elog"
                    <$> ["compile"; "not_a_phase"; "install"; "gone"]) →
        files w' !! fn = files sample_world !! fn
        ∧ (fn ∉ opened evs)
        ∧ (fn ∉ unlink_attempts evs).
Proof.
  exact (unlisted_files_untouched sample_phases "/elog" sample_world
           ["compile"; "not_a_phase"; "install"; "gone"]
           sample_listing sample_readable).
Defined.

Lemma records_append_in_call_order_witness :
  entries sample_buffer (Some "pkg") "build"
  = entries ∅ (Some "pkg") "build"
    ++ omap (appended_to (Some "pkg") "build") sample_calls.
Proof.
  apply (records_append_in_call_order plain_colorize sample_calls ∅
           (Some "pkg") "build").
  by repeat constructor.
Defined.

Lemma keyed_drain_leaves_other_keys_witness :
  (collect_messages (Some "pkg") None sample_buffer).1 !! None = None
  ∧ (collect_messages (Some "pkg") None sample_buffer).2 !! None
    = sample_buffer !! None.
Proof. by apply (keyed_drain_leaves_other_keys "pkg" None sample_buffer None). Defined.

Lemma record_commutes_with_drain_of_other_key_witness :
  collect_messages (Some "pkg") (Some ["build"])
    (_elog_base plain_colorize "QA" "m4" "other" None None None sample_buffer).2
  = ((collect_messages (Some "pkg") (Some ["build"]) sample_buffer).1,
     (_elog_base plain_colorize "QA" "m4" "other" None None None
        (collect_messages (Some "pkg") (Some ["build"]) sample_buffer).2).2).
Proof.
  by apply (record_commutes_with_drain_of_other_key plain_colorize
              "QA" "m4" "other" None None None "pkg" (Some ["build"]) sample_buffer).
Defined.

Lemma covering_filter_is_full_drain_witness :
  collect_messages (Some "pkg") (Some ["install"; "build"; "test"]) sample_buffer
  = collect_messages (Some "pkg") None sample_buffer.
Proof.
  apply (covering_filter_is_full_drain "pkg" ["install"; "build"; "test"]
           sample_buffer
           {[ "build" := [("INFO", "m1")]; "install" := [("WARN", "m2")] ]}).
  - by vm_compute.
  - intros p [l Hl]. apply elem_of_dom_2 in Hl.
    rewrite dom_insert_L, dom_singleton_L in Hl. set_solver.
Defined.

Lemma filter_order_and_repeats_irrelevant_witness :
  collect_messages (Some "pkg") (Some ["build"; "install"; "build"]) sample_buffer
  = collect_messages (Some "pkg") (Some ["install"; "build"]) sample_buffer.
Proof.
  apply (filter_order_and_repeats_irrelevant "pkg"
           ["build"; "install"; "build"] ["install"; "build"] sample_buffer).
  set_solver.
Defined.
